(** * Landmark aggregation and adjustment engine of the face-parts manipulator

    A shallow embedding of the engine of [src/app.py] (coordinate conversion,
    landmark aggregation, confidence assessment, manual adjustments and their
    undo history) and of the validator of [src/app_final.py].

    Conventions of the embedding.
    - A Python [float] is an exact rational ([Qc], canonical rationals, so
      that Python's [==] on coordinates is Leibniz equality).  Rounding to
      [ndigits] decimals is round-half-to-even on the exact value, which is
      what [round(x, ndigits)] does on the value a float holds.
    - A Python [int] is a [Z]; a position in the landmark sequence is a [nat].
    - A [dict] with string keys is a [gmap string _]; a [dict] whose set of
      keys is fixed by the code ({'x', 'y'}) is a record.
    - A raised exception is the [Raise] case of [result].
    - [math.sqrt], [math.atan2], [math.degrees] and float formatting belong to
      the Python runtime, not to the repository: they are Section variables. *)

From Stdlib Require Import QArith Qcanon Qround Qabs Qcabs Lqa Lia ZArith.
From stdpp Require Import gmap strings list fin_maps numbers.

Open Scope Qc_scope.

(** ** Numbers *)

Definition Z2Qc (z : Z) : Qc := Q2Qc (inject_Z z).

(** Decimal literals used by the source. *)
Definition half : Qc := Q2Qc (1 # 2).
Definition ten : Qc := Z2Qc 10.

(** ** Exceptions *)

Inductive exn : Type :=
| ZeroDivisionError.

Inductive result (A : Type) : Type :=
| Ok (a : A)
| Raise (e : exn).

Arguments Ok {A} a.
Arguments Raise {A} e.

(** Sequencing of fallible steps, through stdpp's [x ← m; k]. *)
#[export] Instance result_bind : MBind result := λ A B k m,
  match m with
  | Ok a => k a
  | Raise e => Raise e
  end.

(** [a / b] on Python numbers: true division, raising on a zero divisor. *)
Definition py_truediv (a b : Qc) : result Qc :=
  if bool_decide (b = 0) then Raise ZeroDivisionError else Ok (a / b).

(** ** [round(x, ndigits)] *)

Definition round_half_even (q : Qc) : Z :=
  let f := Qfloor q in
  let r := q - Z2Qc f in
  if bool_decide (r < half) then f
  else if bool_decide (half < r) then (f + 1)%Z
  else if Z.even f then f else (f + 1)%Z.

Definition py_round (q : Qc) (ndigits : nat) : Qc :=
  Z2Qc (round_half_even (q * ten ^ ndigits)) / ten ^ ndigits.

(** ** Configuration ([AppConfig]) *)

Module AppConfig.
Definition DEFAULT_MOVEMENT_THRESHOLD : Qc := Z2Qc 5.
Definition MAX_HISTORY_SIZE : nat := 20.
Definition COORDINATE_PRECISION : nat := 6.

(** Insertion order of the dict literal is kept: it is the iteration order
    of [LANDMARK_GROUPS.items()]. *)
Definition LANDMARK_GROUPS : list (string * list nat) :=
  [ ("left_eye_center", [159; 158; 157; 173]%nat);
    ("right_eye_center", [386; 385; 384; 398]%nat);
    ("nose_tip", [1; 2]%nat);
    ("nose_bridge", [6; 9]%nat);
    ("left_nostril", [131; 134; 126]%nat);
    ("right_nostril", [102; 49; 48]%nat) ]%string.
End AppConfig.

(** ** Coordinates *)

(** The dict [{'x': float, 'y': float}]. *)
Record Coords : Type := mkCoords { cx : Qc; cy : Qc }.

#[export] Instance Coords_eq_dec : EqDecision Coords.
Proof. solve_decision. Defined.

(** ** [CoordinateConverter] *)

Module CoordinateConverter.

Definition scale_to_canvas (real_coords : Coords) (real_size canvas_size : Z * Z)
  : result Coords :=
  let '(real_w, real_h) := real_size in
  let '(canvas_w, canvas_h) := canvas_size in
  scale_x ← py_truediv (Z2Qc canvas_w) (Z2Qc real_w);
  scale_y ← py_truediv (Z2Qc canvas_h) (Z2Qc real_h);
  Ok {| cx := py_round (cx real_coords * scale_x) AppConfig.COORDINATE_PRECISION;
        cy := py_round (cy real_coords * scale_y) AppConfig.COORDINATE_PRECISION |}.

Definition scale_to_real (canvas_coords : Coords) (real_size canvas_size : Z * Z)
  : result Coords :=
  let '(real_w, real_h) := real_size in
  let '(canvas_w, canvas_h) := canvas_size in
  scale_x ← py_truediv (Z2Qc real_w) (Z2Qc canvas_w);
  scale_y ← py_truediv (Z2Qc real_h) (Z2Qc canvas_h);
  Ok {| cx := py_round (cx canvas_coords * scale_x) AppConfig.COORDINATE_PRECISION;
        cy := py_round (cy canvas_coords * scale_y) AppConfig.COORDINATE_PRECISION |}.

(** The [try]/[except Exception] turns a raised exception into [False];
    the warnings are messages only. *)
Definition verify_conversion_integrity (original_coords : Coords)
    (real_size canvas_size : Z * Z) : bool :=
  match
    canvas_coords ← scale_to_canvas original_coords real_size canvas_size;
    restored_coords ← scale_to_real canvas_coords real_size canvas_size;
    let error_x := Qcabs (cx original_coords - cx restored_coords) in
    let error_y := Qcabs (cy original_coords - cy restored_coords) in
    Ok (bool_decide (error_x ≤ 1) && bool_decide (error_y ≤ 1))
  with
  | Ok is_valid => is_valid
  | Raise _ => false
  end.

End CoordinateConverter.


#[export] Instance exn_eq_dec : EqDecision exn.
Proof. solve_decision. Defined.

#[export] Instance result_eq_dec {A} `{EqDecision A} : EqDecision (result A).
Proof. solve_decision. Defined.


(** ** Landmarks *)

(** One entry of [landmarks.landmark]: normalised [x], [y] and depth [z]. *)
Record NormalizedLandmark : Type :=
  mkLandmark { lm_x : Qc; lm_y : Qc; lm_z : Qc }.

#[export] Instance NormalizedLandmark_eq_dec : EqDecision NormalizedLandmark.
Proof. solve_decision. Defined.

(** [sum(...)] starts from 0 and adds from the left. *)
Definition py_sum (l : list Qc) : Qc := foldl Qcplus 0 l.

(** The values a confidence record holds. *)
Inductive PyVal : Type :=
| VFloat (q : Qc)
| VInf
| VInt (z : Z)
| VStr (s : string).

#[export] Instance PyVal_eq_dec : EqDecision PyVal.
Proof. solve_decision. Defined.

(** [max] and [min] on two floats. *)
Definition py_max (a b : Qc) : Qc := if bool_decide (a < b) then b else a.
Definition py_min (a b : Qc) : Qc := if bool_decide (b < a) then b else a.

(** [np.var]: the population variance. *)
Definition np_mean (l : list Qc) : Qc := py_sum l / Z2Qc (Z.of_nat (length l)).
Definition np_var (l : list Qc) : Qc :=
  np_mean (map (λ d, (d - np_mean l) ^ 2) l).

(** [point_name in AppConfig.LANDMARK_GROUPS] and
    [AppConfig.LANDMARK_GROUPS[point_name]]. *)
Definition landmark_group (point_name : string) : option (list nat) :=
  (list_to_map AppConfig.LANDMARK_GROUPS : gmap string (list nat)) !! point_name.

(** The pixel-space point with depth that [assess_landmark_confidence]
    collects. *)
Record Point3 : Type := mkPoint3 { p3_x : Qc; p3_y : Qc; p3_z : Qc }.

Section LandmarkAnalyzer.
(** [math.sqrt]. *)
Variable sqrt : Qc → Qc.

(** [landmarks] is [None] or the detector's message, given by its repeated
    field [landmarks.landmark]; [image_shape] is [(height, width)]. *)
Definition calculate_group_center (landmarks : option (list NormalizedLandmark))
    (group_indices : list nat) (image_shape : Z * Z) : option Coords :=
  match landmarks, group_indices with
  | None, _ | _, [] => None
  | Some landmark, _ =>
    let '(h, w) := image_shape in
    let valid_points :=
      flat_map (λ idx,
        if bool_decide (idx < length landmark)%nat then
          match landmark !! idx with
          | Some point => {| cx := lm_x point * Z2Qc w; cy := lm_y point * Z2Qc h |} :: []
          | None => []
          end
        else []) group_indices in
    match valid_points with
    | [] => None
    | _ =>
      (* the divisor is the length of a non-empty list *)
      let center_x := py_sum (map cx valid_points) / Z2Qc (Z.of_nat (length valid_points)) in
      let center_y := py_sum (map cy valid_points) / Z2Qc (Z.of_nat (length valid_points)) in
      Some {| cx := center_x; cy := center_y |}
    end
  end.

(** The returned dict; a key that the code does not write is absent. *)
Definition assess_landmark_confidence (landmark : list NormalizedLandmark)
    (point_name : string) (image_shape : Z * Z) : gmap string PyVal :=
  match landmark_group point_name with
  | None =>
    {[ "confidence" := VFloat 0; "status" := VStr "unknown"; "color" := VStr "#808080" ]}
  | Some group_indices =>
    let '(h, w) := image_shape in
    let points :=
      flat_map (λ idx,
        if bool_decide (idx < length landmark)%nat then
          match landmark !! idx with
          | Some point =>
            {| p3_x := lm_x point * Z2Qc w; p3_y := lm_y point * Z2Qc h;
               p3_z := lm_z point |} :: []
          | None => []
          end
        else []) group_indices in
    if bool_decide (length points < 2)%nat then
      {[ "confidence" := VFloat 0; "status" := VStr "insufficient_points";
         "color" := VStr "#FF0000" ]}
    else
      match calculate_group_center (Some landmark) group_indices (h, w) with
      | None =>
        {[ "confidence" := VFloat 0; "status" := VStr "calculation_failed";
           "color" := VStr "#FF0000" ]}
      | Some center =>
        let distances :=
          map (λ point, sqrt ((p3_x point - cx center) ^ 2 + (p3_y point - cy center) ^ 2))
              points in
        (* [float('inf')] for no distance; [1.0 / (1.0 + inf)] is [0.0] *)
        let variance := match distances with [] => VInf | _ => VFloat (np_var distances) end in
        let confidence :=
          match variance with
          | VFloat v => py_max 0 (py_min 1 (1 / (1 + v / ten)))
          | _ => 0
          end in
        let '(status, color) :=
          if bool_decide (Q2Qc (8 # 10) < confidence) then ("high", "#00FF00")
          else if bool_decide (half < confidence) then ("medium", "#FFAA00")
          else ("low", "#FF0000") in
        {[ "confidence" := VFloat confidence; "status" := VStr status;
           "color" := VStr color; "variance" := variance;
           "point_count" := VInt (Z.of_nat (length points)) ]}
      end
  end.

End LandmarkAnalyzer.

(** ** [FaceDetector] *)

(** [_get_enhanced_landmarks_internal]: a group enters the result only when
    its center is truthy, that is, not [None]. *)
Definition _get_enhanced_landmarks_internal
    (landmarks : option (list NormalizedLandmark)) (image_shape : Z * Z)
  : gmap string Coords :=
  foldl (λ enhanced_coords '(point_name, group_indices),
           match calculate_group_center landmarks group_indices image_shape with
           | Some center => <[point_name := center]> enhanced_coords
           | None => enhanced_coords
           end)
        ∅ AppConfig.LANDMARK_GROUPS.

(** [image_shape] is [(height, width, channels)]. *)
Definition get_enhanced_landmarks (landmarks : option (list NormalizedLandmark))
    (image_shape : Z * Z * Z) : gmap string Coords :=
  let '(h, w, _) := image_shape in
  _get_enhanced_landmarks_internal landmarks (h, w).

(** *** The object store

    [adjust_landmarks] mutates a landmarks message in place, so messages live
    in a store of objects addressed by identity.  A message owns its entries
    (a protobuf message shares no sub-message), so an object is the list of
    its entries.  A reference outside the store reads as the empty message. *)
Abbreviation Store := (gmap nat (list NormalizedLandmark)).

(** [copy.deepcopy(landmarks)]: a new object with the same contents. *)
Definition deepcopy (σ : Store) (landmarks : nat) : Store * nat :=
  let fresh_ref := fresh (dom σ) in
  (<[fresh_ref := σ !!! landmarks]> σ, fresh_ref).

(** The dict [point_indices] of [adjust_landmarks]. *)
Definition point_indices : gmap string nat :=
  {[ "nose_tip" := 1%nat; "nose_bridge" := 6%nat; "left_nostril" := 131%nat;
     "right_nostril" := 102%nat; "left_eye_center" := 159%nat;
     "right_eye_center" := 386%nat ]}.

(** One turn of the loop over [adjustments.items()], on the entries of the
    copy. *)
Definition adjust_one (w h : Z) (landmark : list NormalizedLandmark)
    (item : string * Coords) : result (list NormalizedLandmark) :=
  let '(point_name, coords) := item in
  match point_indices !! point_name with
  | Some idx =>
    if bool_decide (idx < length landmark)%nat then
      x ← py_truediv (cx coords) (Z2Qc w);
      y ← py_truediv (cy coords) (Z2Qc h);
      Ok (alter (λ point, {| lm_x := x; lm_y := y; lm_z := lm_z point |}) idx landmark)
    else Ok landmark
  | None => Ok landmark
  end.

Fixpoint adjust_items (w h : Z) (landmark : list NormalizedLandmark)
    (items : list (string * Coords)) : result (list NormalizedLandmark) :=
  match items with
  | [] => Ok landmark
  | item :: items =>
    landmark ← adjust_one w h landmark item;
    adjust_items w h landmark items
  end.

(** [adjust_landmarks]: the store after the call and the reference returned.
    [image_shape] is [(height, width)]. *)
Definition adjust_landmarks (σ : Store) (landmarks : nat)
    (adjustments : gmap string Coords) (image_shape : Z * Z)
  : result (Store * nat) :=
  let '(σ, adjusted_landmarks) := deepcopy σ landmarks in
  let '(h, w) := image_shape in
  landmark ← adjust_items w h (σ !!! adjusted_landmarks) (map_to_list adjustments);
  Ok (<[adjusted_landmarks := landmark]> σ, adjusted_landmarks).

(** ** Session state and history *)

(** The fields of [st.session_state] that the engine uses.  The stacks are
    Python lists: index 0 first, the top last.  Every snapshot is a deep copy
    and the state popped by an undo leaves its stack, so no two fields share
    a dict and snapshots are values. *)
Record SessionState : Type := mkSession {
  manual_adjustments : gmap string Coords;
  adjustment_history : list (gmap string Coords);
  adjustment_redo_stack : list (gmap string Coords);
  movement_threshold : Qc
}.

#[export] Instance SessionState_eq_dec : EqDecision SessionState.
Proof. solve_decision. Defined.

(** [initialize_session_state] on a new session. *)
Definition initialize_session_state : SessionState :=
  {| manual_adjustments := ∅; adjustment_history := [];
     adjustment_redo_stack := []; movement_threshold := AppConfig.DEFAULT_MOVEMENT_THRESHOLD |}.

Definition save_adjustment_to_history (st : SessionState) : SessionState :=
  let current_state := manual_adjustments st in
  if bool_decide (list.last (adjustment_history st) = Some current_state) then st
  else
    let history := adjustment_history st in
    let history :=
      if bool_decide (AppConfig.MAX_HISTORY_SIZE ≤ length history)%nat
      then tail history else history in
    {| manual_adjustments := manual_adjustments st;
       adjustment_history := history ++ [current_state];
       adjustment_redo_stack := [];
       movement_threshold := movement_threshold st |}.

Definition undo_last_adjustment (st : SessionState) : bool * SessionState :=
  match list.last (adjustment_history st) with
  | None => (false, st)
  | Some previous_state =>
    let current_state := manual_adjustments st in
    let redo_stack := adjustment_redo_stack st ++ [current_state] in
    let redo_stack :=
      if bool_decide (AppConfig.MAX_HISTORY_SIZE < length redo_stack)%nat
      then tail redo_stack else redo_stack in
    (true,
     {| manual_adjustments := previous_state;
        adjustment_history := removelast (adjustment_history st);
        adjustment_redo_stack := redo_stack;
        movement_threshold := movement_threshold st |})
  end.

(** [st.session_state.manual_adjustments[point_name] = coords]. *)
Definition set_adjustment (point_name : string) (coords : Coords)
    (st : SessionState) : SessionState :=
  {| manual_adjustments := <[point_name := coords]> (manual_adjustments st);
     adjustment_history := adjustment_history st;
     adjustment_redo_stack := adjustment_redo_stack st;
     movement_threshold := movement_threshold st |}.

(** The reset button, and [detect_image_change] on a changed image. *)
Definition reset_adjustments (st : SessionState) : SessionState :=
  {| manual_adjustments := ∅; adjustment_history := [];
     adjustment_redo_stack := []; movement_threshold := movement_threshold st |}.

(** The threshold slider. *)
Definition set_movement_threshold (q : Qc) (st : SessionState) : SessionState :=
  {| manual_adjustments := manual_adjustments st;
     adjustment_history := adjustment_history st;
     adjustment_redo_stack := adjustment_redo_stack st;
     movement_threshold := q |}.

(** ** Drag handling *)

(** One object of [canvas_result.json_data["objects"]]; [None] is a missing
    key. *)
Record CanvasObject : Type := mkCanvasObject {
  obj_type : option string;
  obj_name : option string;
  obj_left : option Qc;
  obj_top : option Qc;
  obj_radius : option Qc;
  obj_originalX : option Qc;
  obj_originalY : option Qc
}.

(** The loop's test: a circle whose name is non-empty and a key of
    [key_points]; the name is returned. *)
Definition target_name (key_points : gset string) (obj : CanvasObject) : option string :=
  if bool_decide (obj_type obj = Some "circle") then
    match obj_name obj with
    | Some name =>
      if bool_decide (name ≠ "") && bool_decide (name ∈ key_points) then Some name else None
    | None => None
    end
  else None.

Definition current_center (obj : CanvasObject) : Coords :=
  {| cx := default 0 (obj_left obj) + default 0 (obj_radius obj);
     cy := default 0 (obj_top obj) + default 0 (obj_radius obj) |}.

Definition original_center (obj : CanvasObject) : Coords :=
  {| cx := default (cx (current_center obj)) (obj_originalX obj);
     cy := default (cy (current_center obj)) (obj_originalY obj) |}.

(** The test that lets a converted coordinate replace the stored one. *)
Definition differs_from_stored (current_coords : option Coords) (real_coords : Coords) : bool :=
  match current_coords with
  | None => true
  | Some current =>
    bool_decide (half < Qcabs (cx current - cx real_coords))
    || bool_decide (half < Qcabs (cy current - cy real_coords))
  end.

Section Session.
(** [math.sqrt]. *)
Variable sqrt : Qc → Qc.

Definition move_distance (obj : CanvasObject) : Qc :=
  sqrt ((cx (current_center obj) - cx (original_center obj)) ^ 2
        + (cy (current_center obj) - cy (original_center obj)) ^ 2).

(** One turn of the loop over [objects]: the accumulators are
    [updated_positions] and [state_changed]. *)
Definition process_object (st : SessionState) (key_points : gset string)
    (real_size canvas_size : Z * Z) (acc : gmap string Coords * bool)
    (obj : CanvasObject) : result (gmap string Coords * bool) :=
  match target_name key_points obj with
  | Some point_name =>
    if bool_decide (movement_threshold st ≤ move_distance obj) then
      real_coords ← CoordinateConverter.scale_to_real (current_center obj)
                      real_size canvas_size;
      let current_coords := manual_adjustments st !! point_name in
      if differs_from_stored current_coords real_coords
      then Ok (<[point_name := real_coords]> (fst acc), true)
      else Ok acc
    else Ok acc
  | None => Ok acc
  end.

Fixpoint process_objects (st : SessionState) (key_points : gset string)
    (real_size canvas_size : Z * Z) (acc : gmap string Coords * bool)
    (objects : list CanvasObject) : result (gmap string Coords * bool) :=
  match objects with
  | [] => Ok acc
  | obj :: objects =>
    acc ← process_object st key_points real_size canvas_size acc obj;
    process_objects st key_points real_size canvas_size acc objects
  end.

(** A circle that the loop passes over: not a key point, or moved by
    less than the threshold. *)
Definition at_rest (st : SessionState) (key_points : gset string)
    (obj : CanvasObject) : Prop :=
  target_name key_points obj = None ∨ move_distance obj < movement_threshold st.

(** The loop over [updated_positions.items()]. *)
Definition commit_positions (updated_positions : gmap string Coords)
    (st : SessionState) : SessionState :=
  map_fold set_adjustment st updated_positions.

(** [json_data] is [canvas_result.json_data], [None] or its list of
    objects.  An exception of the loop is caught and answers [False]; it
    occurs before any field is written.  The rerun request is not part of
    the state. *)
Definition update_enhanced_landmark_positions (json_data : option (list CanvasObject))
    (key_points : gset string) (real_size canvas_size : Z * Z)
    (st : SessionState) : bool * SessionState :=
  match json_data with
  | None => (false, st)
  | Some objects =>
    match process_objects st key_points real_size canvas_size (∅, false) objects with
    | Raise _ => (false, st)
    | Ok (updated_positions, state_changed) =>
      if state_changed
      then (true, commit_positions updated_positions (save_adjustment_to_history st))
      else (false, st)
    end
  end.

(** *** Reachable session states *)

(** What the application can do to the session: the statements that write
    its fields. *)
Inductive action : Type :=
| ASave
| ASet (point_name : string) (coords : Coords)
| AUndo
| AReset
| AThreshold (q : Qc)
| ADrag (json_data : option (list CanvasObject)) (key_points : gset string)
        (real_size canvas_size : Z * Z).

Definition step (st : SessionState) (a : action) : SessionState :=
  match a with
  | ASave => save_adjustment_to_history st
  | ASet point_name coords => set_adjustment point_name coords st
  | AUndo => snd (undo_last_adjustment st)
  | AReset => reset_adjustments st
  | AThreshold q => set_movement_threshold q st
  | ADrag json_data key_points real_size canvas_size =>
    snd (update_enhanced_landmark_positions json_data key_points real_size canvas_size st)
  end.

Definition run (actions : list action) (st : SessionState) : SessionState :=
  foldl step st actions.

Definition reachable (st : SessionState) : Prop :=
  ∃ actions, st = run actions initialize_session_state.

(** A forward edit: the snapshot, then the new override. *)
Definition edit (st : SessionState) (e : string * Coords) : SessionState :=
  set_adjustment (fst e) (snd e) (save_adjustment_to_history st).

Definition edits (es : list (string * Coords)) (st : SessionState) : SessionState :=
  foldl edit st es.



(** [n] undos in a row. *)
Definition undos (n : nat) (st : SessionState) : SessionState :=
  Nat.iter n (λ st, snd (undo_last_adjustment st)) st.

End Session.

(** No two neighbours of a stack are equal. *)
Definition no_adjacent_dup {A} (l : list A) : Prop :=
  ∀ i x y, l !! i = Some x → l !! S i = Some y → x ≠ y.

(** ** The validator of [app_final.py] *)

#[export] Instance Coords_inhabited : Inhabited Coords := populate (mkCoords 0 0).

Record ValidationResult : Type := mkValidation {
  is_valid : bool;
  warnings : list string;
  metrics : gmap string Qc
}.

Definition required_points : list string :=
  ["nose_tip"; "nose_bridge"; "left_nostril"; "right_nostril"].

Section Validator.
(** [math.sqrt], [math.atan2], [math.degrees] and the format [:.1f]. *)
Variable sqrt : Qc → Qc.
Variable atan2 : Qc → Qc → Qc.
Variable degrees : Qc → Qc.
Variable format_1f : Qc → string.

Definition validate_anatomical_constraints (adjustments : gmap string Coords)
  : ValidationResult :=
  if negb (forallb (λ point, bool_decide (is_Some (adjustments !! point))) required_points)
  then {| is_valid := true; warnings := []; metrics := ∅ |}
  else
    let nose_tip := adjustments !!! "nose_tip" in
    let nose_bridge := adjustments !!! "nose_bridge" in
    let left_nostril := adjustments !!! "left_nostril" in
    let right_nostril := adjustments !!! "right_nostril" in
    let nose_length :=
      sqrt ((cx nose_tip - cx nose_bridge) ^ 2 + (cy nose_tip - cy nose_bridge) ^ 2) in
    let metrics := <["nose_length" := nose_length]> ∅ in
    let nostril_distance :=
      sqrt ((cx left_nostril - cx right_nostril) ^ 2
            + (cy left_nostril - cy right_nostril) ^ 2) in
    let metrics := <["nostril_distance" := nostril_distance]> metrics in
    let nose_angle := atan2 (cx nose_tip - cx nose_bridge) (cy nose_tip - cy nose_bridge) in
    let nose_angle_degrees := Qcabs (degrees nose_angle) in
    let metrics := <["nose_angle_degrees" := nose_angle_degrees]> metrics in
    let warnings := [] in
    let warnings :=
      if bool_decide (nose_length < Z2Qc 10) then warnings ++ ["鼻の長さが短すぎます"]
      else if bool_decide (Z2Qc 200 < nose_length) then warnings ++ ["鼻の長さが長すぎます"]
      else warnings in
    let warnings :=
      if bool_decide (nostril_distance < Z2Qc 5) then warnings ++ ["小鼻間の距離が近すぎます"]
      else if bool_decide (Z2Qc 100 < nostril_distance)
           then warnings ++ ["小鼻間の距離が遠すぎます"]
      else warnings in
    let warnings :=
      if bool_decide (Z2Qc 30 < nose_angle_degrees)
      then warnings ++ [("鼻の角度が不自然です（" ++ format_1f nose_angle_degrees ++ "度）")%string]
      else warnings in
    {| is_valid := bool_decide (length warnings = 0%nat);
       warnings := warnings; metrics := metrics |}.

End Validator.

(** ** Running the definitions

    An executable square root, exact to six decimals from below, to evaluate
    the definitions that take [math.sqrt] on concrete inputs.  The theorems
    hold for every function in its place. *)
Definition sqrt_6dp (q : Qc) : Qc :=
  Z2Qc (Z.sqrt (Qfloor (q * ten ^ 12))) / ten ^ 6.

(** The statuses that [assess_landmark_confidence] writes. *)
Definition confidence_statuses : list string :=
  ["high"; "medium"; "low"; "insufficient_points"; "unknown"; "calculation_failed"].

(** The statuses of a completed assessment. *)
Definition graded_statuses : list string := ["high"; "medium"; "low"].

(** The invariant of the history stacks. *)
Definition history_inv (st : SessionState) : Prop :=
  (length (adjustment_history st) ≤ AppConfig.MAX_HISTORY_SIZE)%nat
  ∧ (length (adjustment_redo_stack st) ≤ AppConfig.MAX_HISTORY_SIZE)%nat
  ∧ no_adjacent_dup (adjustment_history st).

(** The session with another redo stack. *)
Definition with_redo_stack (redo_stack : list (gmap string Coords))
    (st : SessionState) : SessionState :=
  {| manual_adjustments := manual_adjustments st;
     adjustment_history := adjustment_history st;
     adjustment_redo_stack := redo_stack;
     movement_threshold := movement_threshold st |}.


(** *** Sample inputs *)

(** Twenty-one drags of the nose tip, to (1, 0), (2, 0), ..., (21, 0). *)
Definition sample_edits : list (string * Coords) :=
  map (λ i : nat, ("nose_tip", mkCoords (Z2Qc (Z.of_nat i)) 0)) (seq 1 21).

(** A session after two drags of the nose tip. *)
Definition sample_session : SessionState :=
  run sqrt_6dp
    [ASave; ASet "nose_tip" (mkCoords (Z2Qc 10) (Z2Qc 10));
     ASave; ASet "nose_tip" (mkCoords (Z2Qc 20) (Z2Qc 20))]
    initialize_session_state.

(** The circle of the nose tip, radius 12, dragged 12 to the right of its
    original center (100, 112). *)
Definition sample_circle : CanvasObject :=
  {| obj_type := Some "circle"; obj_name := Some "nose_tip";
     obj_left := Some (Z2Qc 100); obj_top := Some (Z2Qc 100);
     obj_radius := Some (Z2Qc 12);
     obj_originalX := Some (Z2Qc 100); obj_originalY := Some (Z2Qc 112) |}.

(** The circle of the nose bridge, radius 8, where it was. *)
Definition resting_circle : CanvasObject :=
  {| obj_type := Some "circle"; obj_name := Some "nose_bridge";
     obj_left := Some (Z2Qc 292); obj_top := Some (Z2Qc 72);
     obj_radius := Some (Z2Qc 8);
     obj_originalX := Some (Z2Qc 300); obj_originalY := Some (Z2Qc 80) |}.

(** A store with one message of three landmarks, at reference 0. *)
Definition sample_store : Store :=
  {[ 0%nat := [mkLandmark 0 0 0; mkLandmark half half (Z2Qc 3); mkLandmark 1 1 0] ]}.

(** * The rest of the pages *)

(** ** The canvas ([calculate_canvas_dimensions]) *)

Definition CANVAS_WIDTH : Z := 600.
Definition CANVAS_HEIGHT : Z := 800.

(** [int(x)] on a float: truncation towards zero. *)
Definition py_int (q : Qc) : Z :=
  if bool_decide (0 ≤ q) then Qfloor q else Qceiling q.

(** [image_shape] is [(height, width, channels)]; the result is
    [(canvas_w, canvas_h)]. *)
Definition calculate_canvas_dimensions (image_shape : Z * Z * Z) : result (Z * Z) :=
  let '(original_h, original_w, _) := image_shape in
  if bool_decide (original_h < original_w)%Z then
    let canvas_w := CANVAS_WIDTH in
    ratio ← py_truediv (Z2Qc original_h) (Z2Qc original_w);
    let canvas_h := py_int (ratio * Z2Qc CANVAS_WIDTH) in
    let canvas_h := Z.min canvas_h CANVAS_HEIGHT in
    Ok (canvas_w, canvas_h)
  else
    ratio ← py_truediv (Z2Qc original_h) (Z2Qc original_w);
    let canvas_h := Z.min CANVAS_HEIGHT (py_int (ratio * Z2Qc CANVAS_WIDTH)) in
    ratio ← py_truediv (Z2Qc original_w) (Z2Qc original_h);
    let canvas_w := py_int (ratio * Z2Qc canvas_h) in
    Ok (canvas_w, canvas_h).

(** ** The validator of [app.py] *)

Module LandmarkAnalyzer.
Section Validator.
(** [math.sqrt], [math.atan2], [math.degrees] and the format [:.1f]. *)
Variable sqrt : Qc → Qc.
Variable atan2 : Qc → Qc → Qc.
Variable degrees : Qc → Qc.
Variable format_1f : Qc → string.

Definition validate_anatomical_constraints
    (nose_tip nose_bridge left_nostril right_nostril : Coords) : ValidationResult :=
  let warnings := [] in
  let nose_length :=
    sqrt ((cx nose_tip - cx nose_bridge) ^ 2 + (cy nose_tip - cy nose_bridge) ^ 2) in
  let nostril_distance :=
    sqrt ((cx left_nostril - cx right_nostril) ^ 2
          + (cy left_nostril - cy right_nostril) ^ 2) in
  let nose_angle := atan2 (cx nose_tip - cx nose_bridge) (cy nose_tip - cy nose_bridge) in
  let nose_angle_degrees := Qcabs (degrees nose_angle) in
  let warnings :=
    if bool_decide (nose_length < Z2Qc 10) then warnings ++ ["鼻の長さが短すぎます"]
    else if bool_decide (Z2Qc 200 < nose_length) then warnings ++ ["鼻の長さが長すぎます"]
    else warnings in
  let warnings :=
    if bool_decide (nostril_distance < Z2Qc 5) then warnings ++ ["小鼻間の距離が近すぎます"]
    else if bool_decide (Z2Qc 100 < nostril_distance)
         then warnings ++ ["小鼻間の距離が遠すぎます"]
    else warnings in
  let warnings :=
    if bool_decide (Z2Qc 30 < nose_angle_degrees)
    then warnings ++ [("鼻の角度が不自然です（" ++ format_1f nose_angle_degrees ++ "度）")%string]
    else warnings in
  {| is_valid := bool_decide (length warnings = 0%nat);
     warnings := warnings;
     metrics := {[ "nose_length" := nose_length;
                   "nostril_distance" := nostril_distance;
                   "nose_angle_degrees" := nose_angle_degrees ]} |}.

End Validator.
End LandmarkAnalyzer.

Section ValidatorUI.
Variable sqrt : Qc → Qc.
Variable atan2 : Qc → Qc → Qc.
Variable degrees : Qc → Qc.
Variable format_1f : Qc → string.

(** [validate_anatomical_constraints_ui]: the result that the page shows,
    [None] when it returns before validating. *)
Definition validate_anatomical_constraints_ui (st : SessionState)
  : option ValidationResult :=
  let adjustments := manual_adjustments st in
  if negb (forallb (λ point, bool_decide (is_Some (adjustments !! point))) required_points)
  then None
  else
    Some (LandmarkAnalyzer.validate_anatomical_constraints sqrt atan2 degrees format_1f
            (adjustments !!! "nose_tip") (adjustments !!! "nose_bridge")
            (adjustments !!! "left_nostril") (adjustments !!! "right_nostril")).

End ValidatorUI.

(** ** Image change ([detect_image_change]) *)

(** The two hash fields of the session; [None] before the first image. *)
Record ImageHashes : Type := mkHashes {
  current_image_hash : option string;
  previous_image_hash : option string
}.

Section ImageChange.
(** [hashlib.md5(image_bytes).hexdigest()]. *)
Variable md5_hexdigest : string → string.

Definition detect_image_change (image_bytes : string) (hashes : ImageHashes)
    (st : SessionState) : bool * (ImageHashes * SessionState) :=
  let current_hash := md5_hexdigest image_bytes in
  if bool_decide (previous_image_hash hashes ≠ None
                  ∧ previous_image_hash hashes ≠ Some current_hash)
  then
    (true,
     ({| current_image_hash := Some current_hash; previous_image_hash := Some current_hash |},
      {| manual_adjustments := ∅; adjustment_history := [];
         adjustment_redo_stack := []; movement_threshold := movement_threshold st |}))
  else
    (false,
     ({| current_image_hash := Some current_hash; previous_image_hash := Some current_hash |},
      st)).

End ImageChange.

(** ** Detection ([FaceDetector.detect_face_landmarks]) *)

(** What [cv2.cvtColor] and [face_mesh.process] give: the field
    [multi_face_landmarks] of the results, [None] or the list of the faces
    found, or an exception with its text. *)
Inductive detector_answer (Face : Type) : Type :=
| Processed (multi_face_landmarks : option (list Face))
| Failed (message : string).
Arguments Processed {Face} _.
Arguments Failed {Face} _.

(** The three messages: no face ("顔を検出できませんでした。..."), several
    faces ("複数の顔が検出されました。...") and the text of an exception
    after "顔検出処理中にエラーが発生しました: ". *)
Inductive detection_error : Type :=
| NoFaceDetected
| MultipleFacesDetected
| DetectionFailed (message : string).

(** The result is [(landmarks, error_message)]. *)
Definition detect_face_landmarks {Face : Type} (answer : detector_answer Face)
  : option Face * option detection_error :=
  match answer with
  | Processed None | Processed (Some []) => (None, Some NoFaceDetected)
  | Processed (Some (face :: faces)) =>
    if bool_decide (1 < length (face :: faces))%nat
    then (None, Some MultipleFacesDetected)
    else (Some face, None)
  | Failed message => (None, Some (DetectionFailed message))
  end.

(** ** The front end of [app_final.py] *)

Module AppFinal.

Definition COORDINATE_PRECISION : nat := 2.

(** [detect_face_landmarks] of [app_final.py]: the first face of a truthy
    list, or [None]; an exception is shown and answers [None]. *)
Definition detect_face_landmarks {Face : Type} (answer : detector_answer Face)
  : option Face :=
  match answer with
  | Processed (Some (face :: _)) => Some face
  | _ => None
  end.

(** [scale_coordinates]: sizes are [(width, height)]. *)
Definition scale_coordinates (coords : Coords) (from_size to_size : Z * Z) : result Coords :=
  scale_x ← py_truediv (Z2Qc to_size.1) (Z2Qc from_size.1);
  scale_y ← py_truediv (Z2Qc to_size.2) (Z2Qc from_size.2);
  Ok {| cx := py_round (cx coords * scale_x) COORDINATE_PRECISION;
        cy := py_round (cy coords * scale_y) COORDINATE_PRECISION |}.

(** [calculate_landmark_center]: [landmark] is [landmarks.landmark],
    [image_shape] is [(height, width)]. *)
Definition calculate_landmark_center (landmark : list NormalizedLandmark)
    (indices : list nat) (image_shape : Z * Z) : option Coords :=
  let '(h, w) := image_shape in
  let points :=
    flat_map (λ idx,
      if bool_decide (idx < length landmark)%nat then
        match landmark !! idx with
        | Some point => {| cx := lm_x point * Z2Qc w; cy := lm_y point * Z2Qc h |} :: []
        | None => []
        end
      else []) indices in
  match points with
  | [] => None
  | _ =>
    let center_x := py_sum (map cx points) / Z2Qc (Z.of_nat (length points)) in
    let center_y := py_sum (map cy points) / Z2Qc (Z.of_nat (length points)) in
    Some {| cx := py_round center_x COORDINATE_PRECISION;
            cy := py_round center_y COORDINATE_PRECISION |}
  end.

(** *** The session of [app_final.py]

    The undo button makes [manual_adjustments] the very dict that is the
    last entry of [history], so the dicts live in a store of objects and the
    session holds references.  A reference outside the store reads as the
    empty dict. *)
Record Session : Type := mkSession {
  dicts : gmap nat (gmap string Coords);
  manual_adjustments : nat;
  history : list nat;
  movement_threshold : Qc
}.

(** The dict behind a reference, and the contents of the session. *)
Definition contents (s : Session) (ref : nat) : gmap string Coords := dicts s !!! ref.
Definition overrides (s : Session) : gmap string Coords := contents s (manual_adjustments s).
Definition snapshots (s : Session) : list (gmap string Coords) := contents s <$> history s.

(** [save_to_history]: the deep copy is a new object; it joins the history
    when the history is empty or its last entry differs from the copy. *)
Definition save_to_history (s : Session) : Session :=
  let current_state := fresh (dom (dicts s)) in
  let dicts' := <[current_state := overrides s]> (dicts s) in
  if bool_decide (history s = [])
     || bool_decide (list.last (snapshots s) ≠ Some (overrides s))
  then
    let history' := history s ++ [current_state] in
    let history' := if bool_decide (20 < length history')%nat then tail history' else history' in
    {| dicts := dicts'; manual_adjustments := manual_adjustments s;
       history := history'; movement_threshold := movement_threshold s |}
  else
    {| dicts := dicts'; manual_adjustments := manual_adjustments s;
       history := history s; movement_threshold := movement_threshold s |}.

(** [st.session_state.manual_adjustments[name] = real_coords]: the dict is
    changed in place. *)
Definition set_override (name : string) (real_coords : Coords) (s : Session) : Session :=
  {| dicts := <[manual_adjustments s := <[name := real_coords]> (overrides s)]> (dicts s);
     manual_adjustments := manual_adjustments s;
     history := history s; movement_threshold := movement_threshold s |}.

(** The undo button of [create_sidebar_controls]. *)
Definition undo_button (s : Session) : Session :=
  match history s with
  | [] => s
  | _ =>
    let history' := removelast (history s) in
    match list.last history' with
    | Some top =>
      {| dicts := dicts s; manual_adjustments := top;
         history := history'; movement_threshold := movement_threshold s |}
    | None =>
      let empty_dict := fresh (dom (dicts s)) in
      {| dicts := <[empty_dict := ∅]> (dicts s); manual_adjustments := empty_dict;
         history := history'; movement_threshold := movement_threshold s |}
    end
  end.

(** The reset button. *)
Definition reset_button (s : Session) : Session :=
  let empty_dict := fresh (dom (dicts s)) in
  {| dicts := <[empty_dict := ∅]> (dicts s); manual_adjustments := empty_dict;
     history := []; movement_threshold := movement_threshold s |}.

Section Canvas.
(** [math.sqrt]. *)
Variable sqrt : Qc → Qc.

(** One turn of the loop of [update_adjustments_from_canvas]; the
    accumulator is the session and [updated].  [image_shape] is
    [(height, width)], [canvas_size] is [(width, height)]. *)
Definition update_from_object (image_shape canvas_size : Z * Z)
    (acc : Session * bool) (obj : CanvasObject) : result (Session * bool) :=
  let '(s, updated) := acc in
  let '(h, w) := image_shape in
  let '(canvas_w, canvas_h) := canvas_size in
  match obj_name obj with
  | Some name =>
    if bool_decide (obj_type obj = Some "circle") && bool_decide (name ≠ "") then
      if bool_decide (movement_threshold s ≤ move_distance sqrt obj) then
        real_coords ← scale_coordinates (current_center obj) (canvas_w, canvas_h) (w, h);
        if bool_decide (overrides s !! name ≠ Some real_coords)
        then Ok (set_override name real_coords (save_to_history s), true)
        else Ok (s, updated)
      else Ok (s, updated)
    else Ok (s, updated)
  | None => Ok (s, updated)
  end.

(** [update_adjustments_from_canvas]: nothing here catches an exception, so a
    division by zero leaves the function with the session as the turns
    before it made it. *)
Fixpoint update_from_objects (image_shape canvas_size : Z * Z)
    (acc : Session * bool) (objects : list CanvasObject) : Session * result bool :=
  match objects with
  | [] => (fst acc, Ok (snd acc))
  | obj :: objects =>
    match update_from_object image_shape canvas_size acc obj with
    | Ok acc' => update_from_objects image_shape canvas_size acc' objects
    | Raise e => (fst acc, Raise e)
    end
  end.

Definition update_adjustments_from_canvas (json_data : option (list CanvasObject))
    (image_shape canvas_size : Z * Z) (s : Session) : Session * result bool :=
  match json_data with
  | None => (s, Ok false)
  | Some objects => update_from_objects image_shape canvas_size (s, false) objects
  end.

End Canvas.

(** [initialize_session_state] on a new session: the empty dict is the
    object at reference 0. *)
Definition initialize_session_state : Session :=
  {| dicts := {[ 0%nat := ∅ ]}; manual_adjustments := 0%nat; history := [];
     movement_threshold := Z2Qc 5 |}.

(** What the references of a session satisfy: they are in the store, the
    history holds no object twice, and [manual_adjustments] is in the
    history at most as its last entry. *)
Definition session_inv (s : Session) : Prop :=
  manual_adjustments s ∈ dom (dicts s)
  ∧ Forall (λ ref, ref ∈ dom (dicts s)) (history s)
  ∧ NoDup (history s)
  ∧ (manual_adjustments s ∈ history s → list.last (history s) = Some (manual_adjustments s)).

(** Sessions after one and after two accepted drags of the nose tip. *)
Definition sample_drag : Session :=
  set_override "nose_tip" {| cx := Z2Qc 10; cy := Z2Qc 10 |}
    (save_to_history initialize_session_state).

Definition sample_two_drags : Session :=
  set_override "nose_tip" {| cx := Z2Qc 20; cy := Z2Qc 20 |} (save_to_history sample_drag).

End AppFinal.

(** ** The circles of the canvas pages *)

(** An entry of [key_points] in [create_enhanced_interactive_canvas]; the
    label, the color and the confidence are not read by the drag handler. *)
Record KeyPoint : Type := mkKeyPoint { kp_coords : Coords; kp_radius : Z }.

(** The circle drawn for one entry of [key_points.items()]: the override of
    the point if there is one, else its detected position, on the canvas. *)
Definition initial_object (st : SessionState) (real_size canvas_size : Z * Z)
    (item : string * KeyPoint) : result CanvasObject :=
  let '(point_name, point_info) := item in
  let real_coords := default (kp_coords point_info) (manual_adjustments st !! point_name) in
  canvas_coords ← CoordinateConverter.scale_to_canvas real_coords real_size canvas_size;
  Ok {| obj_type := Some "circle"; obj_name := Some point_name;
        obj_left := Some (cx canvas_coords - Z2Qc (kp_radius point_info));
        obj_top := Some (cy canvas_coords - Z2Qc (kp_radius point_info));
        obj_radius := Some (Z2Qc (kp_radius point_info));
        obj_originalX := Some (cx canvas_coords);
        obj_originalY := Some (cy canvas_coords) |}.

(** The loop that fills [initial_objects]. *)
Fixpoint initial_objects (st : SessionState) (real_size canvas_size : Z * Z)
    (key_points : list (string * KeyPoint)) : result (list CanvasObject) :=
  match key_points with
  | [] => Ok []
  | item :: key_points =>
    obj ← initial_object st real_size canvas_size item;
    objects ← initial_objects st real_size canvas_size key_points;
    Ok (obj :: objects)
  end.

Module AppFinalCanvas.
Import AppFinal.

(** [LANDMARK_GROUPS] of [app_final.py], in the order of the dict literal:
    name, indices and size. *)
Definition LANDMARK_GROUPS : list (string * (list nat * Z)) :=
  [ ("nose_tip", ([1; 2]%nat, 12%Z));
    ("nose_bridge", ([6; 9]%nat, 8%Z));
    ("left_nostril", ([131; 134; 126]%nat, 10%Z));
    ("right_nostril", ([102; 49; 48]%nat, 10%Z));
    ("left_eye_center", ([159; 158; 157; 173]%nat, 10%Z));
    ("right_eye_center", ([386; 385; 384; 398]%nat, 10%Z)) ]%string.

(** The loop of [create_canvas_objects] over the groups; [image_shape] is
    [(height, width)], [canvas_size] is [(width, height)].  A group without
    center is skipped.  The fill color and the confidence of a circle are
    not read by [update_adjustments_from_canvas]. *)
Fixpoint canvas_objects_of (groups : list (string * (list nat * Z)))
    (landmark : list NormalizedLandmark) (image_shape canvas_size : Z * Z)
    (adjustments : option (gmap string Coords)) : result (list CanvasObject) :=
  match groups with
  | [] => Ok []
  | (name, (indices, size)) :: groups =>
    match calculate_landmark_center landmark indices image_shape with
    | None => canvas_objects_of groups landmark image_shape canvas_size adjustments
    | Some center =>
      let center :=
        match adjustments with
        | Some adjustments => default center (adjustments !! name)
        | None => center
        end in
      canvas_coords ← scale_coordinates center (image_shape.2, image_shape.1) canvas_size;
      objects ← canvas_objects_of groups landmark image_shape canvas_size adjustments;
      Ok ({| obj_type := Some "circle"; obj_name := Some name;
             obj_left := Some (cx canvas_coords - Z2Qc size);
             obj_top := Some (cy canvas_coords - Z2Qc size);
             obj_radius := Some (Z2Qc size);
             obj_originalX := Some (cx canvas_coords);
             obj_originalY := Some (cy canvas_coords) |} :: objects)
    end
  end.

Definition create_canvas_objects (landmark : list NormalizedLandmark)
    (image_shape canvas_size : Z * Z) (adjustments : option (gmap string Coords))
  : result (list CanvasObject) :=
  canvas_objects_of LANDMARK_GROUPS landmark image_shape canvas_size adjustments.

End AppFinalCanvas.

(** A face of three landmarks, enough for the nose tip. *)
Definition sample_face : list NormalizedLandmark :=
  [mkLandmark 0 0 0; mkLandmark half half 0; mkLandmark half half 0].

(** * Verification *)

(** ** Arithmetic on canonical rationals *)

(** Goals about [Qc] are moved to [Q], where [lra] applies. *)
Lemma this_Z2Qc z : (this (Z2Qc z) == inject_Z z)%Q.
Proof. unfold Z2Qc. simpl. apply Qred_correct. Qed.

Ltac to_Q :=
  unfold Qcle, Qclt, Qcminus, Qcdiv, half in *; simpl in *;
  repeat (rewrite ?Qred_correct, ?this_Z2Qc in * ).

Lemma Qc_eq_Q (a b : Qc) : (this a == this b)%Q → a = b.
Proof. apply Qc_is_canon. Qed.

Lemma round_half_even_err q :
  Qcabs (Z2Qc (round_half_even q) - q) ≤ half.
Proof.
  apply Qcabs_Qcle_condition.
  pose proof (Qfloor_le q) as Hlo.
  pose proof (Qlt_floor q) as Hhi.
  rewrite inject_Z_plus in Hhi.
  unfold round_half_even.
  repeat case_bool_decide; [| |destruct (Z.even _)].
  all: to_Q; rewrite ?inject_Z_plus; change (inject_Z 1) with 1%Q in *;
    generalize dependent (inject_Z (Qfloor q)); intros; split; lra.
Qed.

Lemma ten_pow_pos n : 0 < ten ^ n.
Proof.
  induction n as [|n IH]; [reflexivity|].
  simpl. apply Qcmult_pos_pos; [reflexivity | exact IH].
Qed.

Lemma Qc_pos_neq0 (t : Qc) : 0 < t → t ≠ 0.
Proof. intros Hp E. rewrite E in Hp. discriminate. Qed.

Lemma py_round_err q n :
  Qcabs (py_round q n - q) ≤ half / ten ^ n.
Proof.
  unfold py_round.
  pose proof (ten_pow_pos n) as Hp.
  pose proof (round_half_even_err (q * ten ^ n)) as He.
  set (t := ten ^ n) in *. set (r := Z2Qc _) in *.
  assert (Ht : t ≠ 0) by (apply Qc_pos_neq0, Hp).
  replace (r / t - q) with ((r - q * t) * / t) by (field; exact Ht).
  rewrite Qcabs_Qcmult.
  rewrite (Qcabs_pos (/ t)) by (apply Qclt_le_weak, Qcinv_pos, Hp).
  unfold Qcdiv. apply Qcmult_le_compat_r; [exact He|].
  apply Qclt_le_weak, Qcinv_pos, Hp.
Qed.


Lemma Z2Qc_pos z : (0 < z)%Z → 0 < Z2Qc z.
Proof.
  intros Hz. to_Q. change 0%Q with (inject_Z 0). rewrite <- Zlt_Qlt. exact Hz.
Qed.

Lemma Z2Qc_eq0 z : Z2Qc z = 0 ↔ z = 0%Z.
Proof.
  split; [|intros ->; reflexivity].
  intros E. apply (f_equal this) in E. 
  assert (inject_Z z == 0)%Q as E' by (rewrite <- this_Z2Qc, E; reflexivity).
  unfold Qeq in E'. simpl in E'. lia.
Qed.

Lemma Z2Qc_le a b : (a ≤ b)%Z → Z2Qc a ≤ Z2Qc b.
Proof. intros H. to_Q. rewrite <- Zle_Qle. exact H. Qed.


(** Closed goals are settled by evaluating their decision procedure. *)
Ltac by_eval := apply (bool_decide_unpack _); vm_compute; exact I.

(** ** Coordinate conversion *)

Section Conversion.
Import CoordinateConverter.

Lemma py_truediv_ok a b : b ≠ 0 → py_truediv a b = Ok (a / b).
Proof. intros Hb. unfold py_truediv. rewrite bool_decide_eq_false_2; done. Qed.







(** C7, as the code has it: a conversion raises exactly when a divisor is
    zero, and what it raises is [ZeroDivisionError].  The divisors of
    [scale_to_canvas] are the model sizes, those of [scale_to_real] the
    display sizes; a zero in the other size gives a coordinate. *)
Theorem conversion_raises_iff_zero_divisor (p : Coords) (real_size canvas_size : Z * Z) :
  (scale_to_canvas p real_size canvas_size = Raise ZeroDivisionError
     ↔ real_size.1 = 0%Z ∨ real_size.2 = 0%Z)
  ∧ (scale_to_real p real_size canvas_size = Raise ZeroDivisionError
     ↔ canvas_size.1 = 0%Z ∨ canvas_size.2 = 0%Z)
  ∧ (∀ e, scale_to_canvas p real_size canvas_size = Raise e → e = ZeroDivisionError)
  ∧ (∀ e, scale_to_real p real_size canvas_size = Raise e → e = ZeroDivisionError).
Proof.
  destruct real_size as [rw rh], canvas_size as [cw ch].
  unfold scale_to_canvas, scale_to_real, py_truediv. simpl.
  repeat split.
  all: repeat case_bool_decide; simpl; rewrite ?Z2Qc_eq0 in *; intros;
    try discriminate; try tauto; try lia; try (destruct e; reflexivity).
Qed.

(** C7 as stated fails: [scale_to_canvas] with a display of size (0, 0)
    returns the coordinate (0, 0). *)
Lemma zero_display_size_returns_coordinate :
  scale_to_canvas (mkCoords (Z2Qc 3) (Z2Qc 4)) (100, 100)%Z (0, 0)%Z = Ok (mkCoords 0 0)
  ∧ scale_to_real (mkCoords (Z2Qc 3) (Z2Qc 4)) (0, 0)%Z (100, 100)%Z = Ok (mkCoords 0 0).
Proof. by_eval. Qed.

End Conversion.

(** ** Landmark aggregation *)

Lemma flat_map_nil_all {A B} (f : A → list B) (l : list A) :
  Forall (λ a, f a = []) l → flat_map f l = [].
Proof.
  induction 1 as [|a l Ha _ IH]; [reflexivity|].
  simpl. rewrite Ha, IH. reflexivity.
Qed.

Lemma calculate_group_center_out_of_range landmarks group_indices image_shape :
  (∀ landmark, landmarks = Some landmark →
     Forall (λ idx, length landmark ≤ idx)%nat group_indices) →
  calculate_group_center landmarks group_indices image_shape = None.
Proof.
  intros Hout. unfold calculate_group_center.
  destruct landmarks as [landmark|]; [|reflexivity].
  destruct group_indices as [|idx0 rest]; [reflexivity|].
  destruct image_shape as [h w].
  rewrite flat_map_nil_all; [reflexivity|].
  specialize (Hout landmark eq_refl).
  induction Hout as [|idx l Hidx _ IH]; constructor; [|exact IH].
  rewrite bool_decide_eq_false_2 by lia. reflexivity.
Qed.

(** The loop of [_get_enhanced_landmarks_internal] over any table of groups
    with distinct names. *)
Lemma enhanced_fold_lookup landmarks image_shape point_name
    (groups : list (string * list nat)) (acc : gmap string Coords) :
  NoDup groups.*1 →
  foldl (λ enhanced_coords '(name, group_indices),
           match calculate_group_center landmarks group_indices image_shape with
           | Some center => <[name := center]> enhanced_coords
           | None => enhanced_coords
           end) acc groups !! point_name
  = match (list_to_map groups : gmap string (list nat)) !! point_name with
    | Some group_indices =>
      match calculate_group_center landmarks group_indices image_shape with
      | Some center => Some center
      | None => acc !! point_name
      end
    | None => acc !! point_name
    end.
Proof.
  revert acc. induction groups as [|[name group_indices] groups IH]; intros acc Hnd.
  - simpl. rewrite lookup_empty. reflexivity.
  - simpl in Hnd. apply list.NoDup_cons in Hnd as [Hfresh Hnd]. simpl.
    rewrite IH by exact Hnd.
    destruct (decide (name = point_name)) as [->|Hne].
    + rewrite lookup_insert_eq.
      rewrite (not_elem_of_list_to_map_1 _ point_name) by exact Hfresh.
      destruct (calculate_group_center _ _ _); [apply lookup_insert_eq | reflexivity].
    + rewrite lookup_insert_ne by exact Hne.
      destruct (list_to_map groups !! point_name) as [idxs|];
        [destruct (calculate_group_center landmarks idxs image_shape); [reflexivity|] |];
        destruct (calculate_group_center landmarks group_indices image_shape);
        rewrite ?lookup_insert_ne by exact Hne; reflexivity.
Qed.

Lemma LANDMARK_GROUPS_NoDup : NoDup AppConfig.LANDMARK_GROUPS.*1.
Proof. apply (bool_decide_unpack _). vm_compute. exact I. Qed.

(** C5: the center of a group none of whose indices is below the length of
    the landmark sequence is [None], never a point; and the aggregate holds
    a name exactly when the name is a group whose center is not [None], with
    that center as its value. *)
Theorem unresolved_group_is_absent (landmarks : option (list NormalizedLandmark))
    (group_indices : list nat) (image_shape : Z * Z) :
  (∀ landmark, landmarks = Some landmark →
     Forall (λ idx, length landmark ≤ idx)%nat group_indices) →
  calculate_group_center landmarks group_indices image_shape = None
  ∧ (∀ point_name,
       _get_enhanced_landmarks_internal landmarks image_shape !! point_name
       = landmark_group point_name
           ≫= λ indices, calculate_group_center landmarks indices image_shape)
  ∧ (∀ point_name,
       landmark_group point_name = Some group_indices →
       point_name ∉ dom (_get_enhanced_landmarks_internal landmarks image_shape)).
Proof.
  intros Hout.
  pose proof (calculate_group_center_out_of_range _ _ image_shape Hout) as Hnone.
  assert (Hlookup : ∀ point_name,
       _get_enhanced_landmarks_internal landmarks image_shape !! point_name
       = landmark_group point_name
           ≫= λ indices, calculate_group_center landmarks indices image_shape).
  { intros point_name. unfold _get_enhanced_landmarks_internal, landmark_group.
    rewrite enhanced_fold_lookup by apply LANDMARK_GROUPS_NoDup.
    rewrite lookup_empty.
    destruct (list_to_map AppConfig.LANDMARK_GROUPS !! point_name) as [idxs|]; simpl;
      [destruct (calculate_group_center landmarks idxs image_shape)|]; reflexivity. }
  split; [exact Hnone|]. split; [exact Hlookup|].
  intros point_name Hgroup. rewrite not_elem_of_dom, Hlookup, Hgroup. simpl. exact Hnone.
Qed.

Lemma unresolved_group_is_absent_witness :
  let landmarks := Some [mkLandmark half half 0; mkLandmark half half 0] in
  calculate_group_center landmarks [6; 9]%nat (100, 100)%Z = None
  ∧ (∀ point_name,
       _get_enhanced_landmarks_internal landmarks (100, 100)%Z !! point_name
       = landmark_group point_name
           ≫= λ indices, calculate_group_center landmarks indices (100, 100)%Z)
  ∧ (∀ point_name,
       landmark_group point_name = Some [6; 9]%nat →
       point_name ∉ dom (_get_enhanced_landmarks_internal landmarks (100, 100)%Z)).
Proof.
  apply (unresolved_group_is_absent
           (Some [mkLandmark half half 0; mkLandmark half half 0]) [6; 9]%nat (100, 100)%Z).
  intros landmark [= <-]. repeat constructor; simpl; lia.
Defined.

(** ** Confidence assessment *)

Lemma clamp_unit_interval (q : Qc) : 0 ≤ py_max 0 (py_min 1 q) ∧ py_max 0 (py_min 1 q) ≤ 1.
Proof.
  unfold py_max, py_min. repeat case_bool_decide; split;
    try (apply Qcle_refl); try (by_eval);
    try (apply Qclt_le_weak; assumption); try (apply Qcnot_lt_le; assumption).
Qed.

(** C6, as the code has it: every record holds a confidence within [0, 1],
    one of the six statuses and a color; the variance and the point count
    are in the record exactly when the status is high, medium or low, and a
    name that is not a group gives exactly the three-key record. *)
Theorem confidence_record_fields (sqrt : Qc → Qc) (landmark : list NormalizedLandmark)
    (point_name : string) (image_shape : Z * Z) :
  let info := assess_landmark_confidence sqrt landmark point_name image_shape in
  (∃ c, info !! "confidence" = Some (VFloat c) ∧ 0 ≤ c ∧ c ≤ 1)
  ∧ (∃ status, info !! "status" = Some (VStr status)
       ∧ status ∈ confidence_statuses
       ∧ (is_Some (info !! "variance") ↔ status ∈ graded_statuses)
       ∧ (is_Some (info !! "point_count") ↔ status ∈ graded_statuses))
  ∧ (∃ color, info !! "color" = Some (VStr color))
  ∧ (landmark_group point_name = None →
       info = {[ "confidence" := VFloat 0; "status" := VStr "unknown";
                 "color" := VStr "#808080" ]}).
Proof.
  unfold assess_landmark_confidence.
  assert (H0 : 0 ≤ 0 ∧ (0:Qc) ≤ 1) by (split; by_eval).
  assert (Hin : ∀ s, bool_decide (s ∈ confidence_statuses) = true → s ∈ confidence_statuses)
    by (intros s; apply bool_decide_eq_true_1).
  assert (Hgr : ∀ s, bool_decide (s ∈ graded_statuses) = true → s ∈ graded_statuses)
    by (intros s; apply bool_decide_eq_true_1).
  assert (Hngr : ∀ s, bool_decide (s ∈ graded_statuses) = false → ¬ s ∈ graded_statuses)
    by (intros s; apply bool_decide_eq_false_1).
  destruct (landmark_group point_name) as [group_indices|]; destruct image_shape as [h w].
  2:{ lazy zeta. split; [exists 0; split; [reflexivity | exact H0]|].
      split; [|split; [eexists; reflexivity | reflexivity]].
      eexists. split; [reflexivity|]. split; [apply Hin; reflexivity|].
      split; (split; [intros [? [=]] | intros Hg; exfalso; revert Hg; apply Hngr; reflexivity]). }
  case_bool_decide.
  { lazy zeta. split; [exists 0; split; [reflexivity | exact H0]|].
    split; [|split; [eexists; reflexivity | intros [=]]].
    eexists. split; [reflexivity|]. split; [apply Hin; reflexivity|].
    split; (split; [intros [? [=]] | intros Hg; exfalso; revert Hg; apply Hngr; reflexivity]). }
  destruct (calculate_group_center _ _ _) as [center|].
  2:{ lazy zeta. split; [exists 0; split; [reflexivity | exact H0]|].
      split; [|split; [eexists; reflexivity | intros [=]]].
      eexists. split; [reflexivity|]. split; [apply Hin; reflexivity|].
      split; (split; [intros [? [=]] | intros Hg; exfalso; revert Hg; apply Hngr; reflexivity]). }
  set (variance := match map _ _ with [] => VInf | _ => _ end).
  set (confidence := match variance with VFloat v => _ | _ => 0 end).
  assert (Hc : 0 ≤ confidence ∧ confidence ≤ 1).
  { unfold confidence. destruct variance; try exact H0. apply clamp_unit_interval. }
  lazy zeta.
  repeat case_bool_decide.
  all: split; [exists confidence; split; [reflexivity | exact Hc]|].
  all: split; [|split; [eexists; reflexivity | intros [=]]].
  all: eexists; split; [reflexivity|]; split; [apply Hin; reflexivity|].
  all: split; (split; [intros _; apply Hgr; reflexivity | intros _; eexists; reflexivity]).
Qed.

(** C6 as stated fails: for a name that is not a group, and for a group with
    fewer than two points in range, the record has neither a variance nor a
    point count. *)
Lemma confidence_record_without_diagnostics :
  let unknown := assess_landmark_confidence sqrt_6dp [] "chin" (100, 100)%Z in
  let insufficient :=
    assess_landmark_confidence sqrt_6dp
      [mkLandmark half half 0; mkLandmark half half 0] "nose_tip" (100, 100)%Z in
  unknown !! "status" = Some (VStr "unknown")
  ∧ unknown !! "variance" = None ∧ unknown !! "point_count" = None
  ∧ insufficient !! "status" = Some (VStr "insufficient_points")
  ∧ insufficient !! "variance" = None ∧ insufficient !! "point_count" = None.
Proof. lazy zeta. by_eval. Qed.

(** A completed assessment: two coincident points give variance 0 and
    confidence 1. *)
Example assess_tight_cluster :
  assess_landmark_confidence sqrt_6dp
    [mkLandmark 0 0 0; mkLandmark half half 0; mkLandmark half half 0]
    "nose_tip" (100, 100)%Z
  = {[ "confidence" := VFloat 1; "status" := VStr "high"; "color" := VStr "#00FF00";
       "variance" := VFloat 0; "point_count" := VInt 2 ]}.
Proof. by_eval. Qed.

(** The aggregation example of the specification: (0.1, 0.1) and (0.3, 0.3)
    on a 100 by 100 image have center (20, 20). *)
Example calculate_group_center_mean :
  calculate_group_center
    (Some [mkLandmark (Q2Qc (1 # 10)) (Q2Qc (1 # 10)) 0;
           mkLandmark (Q2Qc (3 # 10)) (Q2Qc (3 # 10)) 0])
    [0; 1]%nat (100, 100)%Z
  = Some (mkCoords (Z2Qc 20) (Z2Qc 20)).
Proof. by_eval. Qed.

(** ** The validator *)

(** C8: when one of the four required points is missing, the validator
    answers valid, with no warning and no metric. *)
Theorem validate_missing_point (sqrt : Qc → Qc) (atan2 : Qc → Qc → Qc)
    (degrees : Qc → Qc) (format_1f : Qc → string) (adjustments : gmap string Coords) :
  (∃ point, point ∈ required_points ∧ adjustments !! point = None) →
  validate_anatomical_constraints sqrt atan2 degrees format_1f adjustments
  = {| is_valid := true; warnings := []; metrics := ∅ |}.
Proof.
  intros (point & Hin & Hnone). unfold validate_anatomical_constraints.
  assert (Hall : forallb (λ point, bool_decide (is_Some (adjustments !! point)))
                         required_points = false).
  { apply not_true_is_false. intros Hall.
    rewrite forallb_forall in Hall.
    specialize (Hall point (proj1 (list_elem_of_In _ _) Hin)).
    apply bool_decide_eq_true_1 in Hall. rewrite Hnone in Hall.
    destruct Hall as [? [=]]. }
  rewrite Hall. reflexivity.
Qed.

Lemma validate_missing_point_witness :
  validate_anatomical_constraints sqrt_6dp (λ _ _, 0) (λ _, 0) (λ _, "0.0") ∅
  = {| is_valid := true; warnings := []; metrics := ∅ |}.
Proof.
  apply (validate_missing_point sqrt_6dp (λ _ _, 0) (λ _, 0) (λ _, "0.0") ∅).
  exists "nose_tip". split; [by_eval | reflexivity].
Defined.

(** The threshold scenario of the specification: a nose of length 5 is too
    short, nostrils 100 apart are not too far. *)
Example validate_short_nose :
  validate_anatomical_constraints sqrt_6dp (λ _ _, 0) (λ _, 0) (λ _, "0.0")
    {[ "nose_tip" := mkCoords 0 0; "nose_bridge" := mkCoords 0 (Z2Qc 5);
       "left_nostril" := mkCoords (Z2Qc (-50)) 0; "right_nostril" := mkCoords (Z2Qc 50) 0 ]}
  = {| is_valid := false; warnings := ["鼻の長さが短すぎます"];
       metrics := {[ "nose_length" := Z2Qc 5; "nostril_distance" := Z2Qc 100;
                     "nose_angle_degrees" := 0 ]} |}.
Proof.
  unfold validate_anatomical_constraints.
  match goal with |- ?l = ?r =>
    assert (is_valid l = is_valid r ∧ warnings l = warnings r ∧ metrics l = metrics r)
      as (H1 & H2 & H3) by (by_eval);
    destruct l, r; simpl in *; congruence end.
Qed.

(** ** The history stacks *)

Section Stacks.
Context {A : Type}.
Implicit Types (l : list A) (x : A).

Lemma no_adjacent_dup_snoc l x :
  no_adjacent_dup l → list.last l ≠ Some x → no_adjacent_dup (l ++ [x]).
Proof.
  intros Hl Hlast i a b Ha Hb.
  destruct (decide (S i < length l)%nat) as [Hlt|Hge].
  - rewrite lookup_app_l in Ha, Hb by lia. eapply Hl; eassumption.
  - assert (S i = length l) as Hi.
    { apply lookup_lt_Some in Hb. rewrite length_app in Hb. simpl in Hb. lia. }
    rewrite lookup_app_l in Ha by lia.
    rewrite lookup_app_r, Hi, Nat.sub_diag in Hb by lia. simpl in Hb.
    injection Hb as <-. intros ->. apply Hlast.
    rewrite last_lookup, <- Hi. exact Ha.
Qed.

Lemma no_adjacent_dup_tail l : no_adjacent_dup l → no_adjacent_dup (tail l).
Proof.
  intros Hl i a b Ha Hb. destruct l as [|x l]; simpl in Ha, Hb.
  - rewrite lookup_nil in Ha. discriminate.
  - apply (Hl (S i) a b); assumption.
Qed.

Lemma no_adjacent_dup_removelast l : no_adjacent_dup l → no_adjacent_dup (removelast l).
Proof.
  intros Hl i a b Ha Hb. rewrite removelast_firstn_len in Ha, Hb.
  apply lookup_take_Some in Ha as [Ha _]. apply lookup_take_Some in Hb as [Hb _].
  eapply Hl; eassumption.
Qed.

Lemma no_adjacent_dup_last l x : no_adjacent_dup (l ++ [x]) → list.last l ≠ Some x.
Proof.
  intros Hl Hlast. destruct l as [|y l] using rev_ind; [discriminate|]. clear IHl.
  rewrite last_snoc in Hlast. injection Hlast as ->.
  apply (Hl (length l) x x); [| |reflexivity].
  - rewrite lookup_app_l by (rewrite length_app; simpl; lia).
    rewrite lookup_app_r, Nat.sub_diag by lia. reflexivity.
  - replace (S (length l)) with (length (l ++ [x])) by (rewrite length_app; simpl; lia).
    rewrite lookup_app_r, Nat.sub_diag by lia. reflexivity.
Qed.

Lemma last_tail_Some l x : list.last (tail l) = Some x → list.last l = Some x.
Proof.
  destruct l as [|y l]; [discriminate|]. simpl. intros H.
  rewrite last_cons, H. reflexivity.
Qed.

Lemma length_removelast l : length (removelast l) = pred (length l).
Proof.
  rewrite removelast_firstn_len, length_take. lia.
Qed.

End Stacks.

(** ** The session *)

Lemma commit_positions_fields updated_positions st :
  manual_adjustments (commit_positions updated_positions st)
    = updated_positions ∪ manual_adjustments st
  ∧ adjustment_history (commit_positions updated_positions st) = adjustment_history st
  ∧ adjustment_redo_stack (commit_positions updated_positions st) = adjustment_redo_stack st
  ∧ movement_threshold (commit_positions updated_positions st) = movement_threshold st.
Proof.
  unfold commit_positions.
  apply (map_fold_weak_ind (λ r m,
           manual_adjustments r = m ∪ manual_adjustments st
           ∧ adjustment_history r = adjustment_history st
           ∧ adjustment_redo_stack r = adjustment_redo_stack st
           ∧ movement_threshold r = movement_threshold st)).
  - rewrite (left_id_L ∅ (∪)). repeat split.
  - intros name coords m r Hfresh (Hm & Hh & Hr & Ht). simpl.
    rewrite Hm, <- insert_union_l. repeat split; assumption.
Qed.

Lemma save_cases st :
  (list.last (adjustment_history st) = Some (manual_adjustments st)
   ∧ save_adjustment_to_history st = st)
  ∨ (list.last (adjustment_history st) ≠ Some (manual_adjustments st)
     ∧ save_adjustment_to_history st
       = {| manual_adjustments := manual_adjustments st;
            adjustment_history :=
              (if bool_decide (AppConfig.MAX_HISTORY_SIZE ≤ length (adjustment_history st))%nat
               then tail (adjustment_history st) else adjustment_history st)
              ++ [manual_adjustments st];
            adjustment_redo_stack := [];
            movement_threshold := movement_threshold st |}).
Proof.
  unfold save_adjustment_to_history. case_bool_decide; [left | right]; split; done.
Qed.

Lemma save_keeps_manual st :
  manual_adjustments (save_adjustment_to_history st) = manual_adjustments st.
Proof. destruct (save_cases st) as [[_ ->]|[_ ->]]; reflexivity. Qed.

Lemma save_keeps_threshold st :
  movement_threshold (save_adjustment_to_history st) = movement_threshold st.
Proof. destruct (save_cases st) as [[_ ->]|[_ ->]]; reflexivity. Qed.

Lemma save_top st :
  list.last (adjustment_history (save_adjustment_to_history st))
  = Some (manual_adjustments st).
Proof.
  destruct (save_cases st) as [[Htop ->]|[_ ->]]; [exact Htop|].
  simpl. apply last_snoc.
Qed.

Lemma undo_cases st :
  (adjustment_history st = [] ∧ undo_last_adjustment st = (false, st))
  ∨ (∃ history previous_state,
       adjustment_history st = history ++ [previous_state]
       ∧ undo_last_adjustment st
         = (true,
            {| manual_adjustments := previous_state;
               adjustment_history := history;
               adjustment_redo_stack :=
                 (if bool_decide (AppConfig.MAX_HISTORY_SIZE
                                  < length (adjustment_redo_stack st ++ [manual_adjustments st]))%nat
                  then tail (adjustment_redo_stack st ++ [manual_adjustments st])
                  else adjustment_redo_stack st ++ [manual_adjustments st]);
               movement_threshold := movement_threshold st |})).
Proof.
  unfold undo_last_adjustment.
  destruct (list.last (adjustment_history st)) as [previous_state|] eqn:Hlast.
  - right. apply last_Some in Hlast as [history Hh].
    exists history, previous_state. split; [exact Hh|].
    rewrite Hh, removelast_last. reflexivity.
  - left. apply last_None in Hlast. split; [exact Hlast | reflexivity].
Qed.

Section SessionProofs.
Variable sqrt : Qc → Qc.

Lemma drag_cases json_data key_points real_size canvas_size st :
  update_enhanced_landmark_positions sqrt json_data key_points real_size canvas_size st
    = (false, st)
  ∨ ∃ updated_positions,
      update_enhanced_landmark_positions sqrt json_data key_points real_size canvas_size st
      = (true, commit_positions updated_positions (save_adjustment_to_history st)).
Proof.
  unfold update_enhanced_landmark_positions.
  destruct json_data as [objects|]; [|left; reflexivity].
  destruct (process_objects _ _ _ _ _ _ _) as [[updated_positions [|]]|e];
    [right; eexists; reflexivity | left; reflexivity | left; reflexivity].
Qed.

Lemma history_inv_save st : history_inv st → history_inv (save_adjustment_to_history st).
Proof.
  intros (Hh & Hr & Hd).
  destruct (save_cases st) as [[_ ->]|[Htop ->]]; [repeat split; assumption|].
  unfold history_inv, AppConfig.MAX_HISTORY_SIZE in *. simpl.
  case_bool_decide; rewrite length_app; simpl.
  - split; [rewrite length_tl; lia|]. split; [lia|].
    apply no_adjacent_dup_snoc; [apply no_adjacent_dup_tail, Hd|].
    intros Hl. apply Htop, last_tail_Some, Hl.
  - split; [lia|]. split; [lia|]. apply no_adjacent_dup_snoc; assumption.
Qed.

Lemma history_inv_undo st : history_inv st → history_inv (snd (undo_last_adjustment st)).
Proof.
  intros (Hh & Hr & Hd).
  destruct (undo_cases st) as [[_ ->]|(history & previous_state & Hhist & ->)];
    [repeat split; assumption|].
  unfold history_inv, AppConfig.MAX_HISTORY_SIZE in *. simpl.
  rewrite Hhist in Hh, Hd. rewrite length_app in Hh. simpl in Hh.
  split; [lia|]. split.
  - case_bool_decide; [rewrite length_tl|]; rewrite length_app in *; simpl in *; lia.
  - apply no_adjacent_dup_removelast in Hd. rewrite removelast_last in Hd. exact Hd.
Qed.

Lemma history_inv_commit updated_positions st :
  history_inv st → history_inv (commit_positions updated_positions st).
Proof.
  intros Hinv. destruct (commit_positions_fields updated_positions st) as (_ & Hh & Hr & _).
  unfold history_inv. rewrite Hh, Hr. exact Hinv.
Qed.

Lemma history_inv_step st a : history_inv st → history_inv (step sqrt st a).
Proof.
  intros Hinv. destruct a as [| | | | |json_data key_points real_size canvas_size]; simpl.
  - apply history_inv_save, Hinv.
  - exact Hinv.
  - apply history_inv_undo, Hinv.
  - unfold history_inv, no_adjacent_dup. simpl. repeat split; try lia.
    intros i x y Hx. rewrite lookup_nil in Hx. discriminate.
  - exact Hinv.
  - destruct (drag_cases json_data key_points real_size canvas_size st)
      as [->|[updated_positions ->]]; simpl; [exact Hinv|].
    apply history_inv_commit, history_inv_save, Hinv.
Qed.

Lemma history_inv_run actions st : history_inv st → history_inv (run sqrt actions st).
Proof.
  revert st. induction actions as [|a actions IH]; intros st Hinv; [exact Hinv|].
  simpl. apply IH, history_inv_step, Hinv.
Qed.

Lemma reachable_history_inv st : reachable sqrt st → history_inv st.
Proof.
  intros [actions ->]. apply history_inv_run.
  unfold history_inv, no_adjacent_dup. simpl. repeat split; try lia.
  intros i x y Hx. rewrite lookup_nil in Hx. discriminate.
Qed.

End SessionProofs.

(** ** Capacity of the history *)









Section HistoryClaims.
Variable sqrt : Qc → Qc.


Lemma save_after_undo_clears_redo st :
  history_inv st →
  adjustment_redo_stack (save_adjustment_to_history (snd (undo_last_adjustment st))) = [].
Proof.
  intros (_ & _ & Hd).
  destruct (undo_cases st) as [[Hnil ->]|(history & previous & Hh & ->)]; simpl.
  - destruct (save_cases st) as [[Hdup _]|[_ ->]]; [|reflexivity].
    rewrite Hnil in Hdup. discriminate.
  - match goal with |- adjustment_redo_stack (save_adjustment_to_history ?s) = _ =>
      destruct (save_cases s) as [[Hdup _]|[_ ->]] end; [|reflexivity].
    simpl in Hdup. rewrite Hh in Hd. apply no_adjacent_dup_last in Hd. done.
Qed.

(** C4: from a reachable state, an undo followed by a forward edit leaves the
    redo stack empty, for the snapshot-then-override and for a drag that
    commits. *)
Theorem redo_empty_after_undo_then_edit (st : SessionState) (e : string * Coords) :
  reachable sqrt st →
  adjustment_redo_stack (edit (snd (undo_last_adjustment st)) e) = []
  ∧ (∀ json_data key_points real_size canvas_size,
       fst (update_enhanced_landmark_positions sqrt json_data key_points real_size
              canvas_size (snd (undo_last_adjustment st))) = true →
       adjustment_redo_stack
         (snd (update_enhanced_landmark_positions sqrt json_data key_points real_size
                 canvas_size (snd (undo_last_adjustment st)))) = []).
Proof.
  intros Hreach. pose proof (reachable_history_inv sqrt st Hreach) as Hinv.
  split.
  - unfold edit. simpl. apply save_after_undo_clears_redo, Hinv.
  - intros json_data key_points real_size canvas_size.
    destruct (drag_cases sqrt json_data key_points real_size canvas_size
                (snd (undo_last_adjustment st))) as [->|[updated_positions ->]]; simpl.
    + discriminate.
    + intros _.
      destruct (commit_positions_fields updated_positions
                  (save_adjustment_to_history (snd (undo_last_adjustment st))))
        as (_ & _ & -> & _).
      apply save_after_undo_clears_redo, Hinv.
Qed.

Lemma process_objects_ignores_redo redo_stack st key_points real_size canvas_size acc objects :
  process_objects sqrt (with_redo_stack redo_stack st) key_points real_size canvas_size
    acc objects
  = process_objects sqrt st key_points real_size canvas_size acc objects.
Proof.
  revert acc. induction objects as [|obj objects IH]; intros acc; [reflexivity|].
  simpl. change (process_object sqrt (with_redo_stack redo_stack st))
           with (process_object sqrt st).
  destruct (process_object sqrt st key_points real_size canvas_size acc obj); simpl;
    [apply IH | reflexivity].
Qed.

(** C1, what the code does: the session has no redo.  No action reads the
    redo stack: whatever the stack holds, every action leaves the same
    adjustments, the same history and the same threshold, so a state that
    undo pushed on the redo stack never comes back. *)
Theorem redo_stack_is_never_read (a : action) (st : SessionState)
    (redo_stack : list (gmap string Coords)) :
  manual_adjustments (step sqrt (with_redo_stack redo_stack st) a)
    = manual_adjustments (step sqrt st a)
  ∧ adjustment_history (step sqrt (with_redo_stack redo_stack st) a)
    = adjustment_history (step sqrt st a)
  ∧ movement_threshold (step sqrt (with_redo_stack redo_stack st) a)
    = movement_threshold (step sqrt st a).
Proof.
  assert (Hsave : ∀ s r,
            manual_adjustments (save_adjustment_to_history (with_redo_stack r s))
              = manual_adjustments (save_adjustment_to_history s)
            ∧ adjustment_history (save_adjustment_to_history (with_redo_stack r s))
              = adjustment_history (save_adjustment_to_history s)
            ∧ movement_threshold (save_adjustment_to_history (with_redo_stack r s))
              = movement_threshold (save_adjustment_to_history s)).
  { intros s r. unfold save_adjustment_to_history. simpl.
    case_bool_decide; repeat split. }
  destruct a as [| | | | |json_data key_points real_size canvas_size]; simpl.
  - apply Hsave.
  - repeat split.
  - unfold undo_last_adjustment. simpl.
    destruct (list.last (adjustment_history st)); repeat split.
  - repeat split.
  - repeat split.
  - unfold update_enhanced_landmark_positions.
    destruct json_data as [objects|]; [|repeat split].
    rewrite process_objects_ignores_redo.
    destruct (process_objects sqrt st key_points real_size canvas_size (∅, false) objects)
      as [[updated_positions [|]]|]; simpl; [|repeat split..].
    destruct (commit_positions_fields updated_positions
                (save_adjustment_to_history (with_redo_stack redo_stack st)))
      as (-> & -> & _ & ->).
    destruct (commit_positions_fields updated_positions (save_adjustment_to_history st))
      as (-> & -> & _ & ->).
    destruct (Hsave st redo_stack) as (-> & -> & ->). repeat split.
Qed.

End HistoryClaims.

(** ** Drags *)

Lemma differs_from_stored_true current_coords real_coords :
  differs_from_stored current_coords real_coords = true
  ↔ current_coords = None
    ∨ ∃ current, current_coords = Some current
        ∧ (half < Qcabs (cx current - cx real_coords)
           ∨ half < Qcabs (cy current - cy real_coords)).
Proof.
  unfold differs_from_stored. destruct current_coords as [current|].
  - rewrite orb_true_iff, !bool_decide_eq_true. split.
    + intros H. right. exists current. split; [reflexivity | exact H].
    + intros [[=]|(c & [= <-] & H)]. exact H.
  - split; [intros _; left; reflexivity | reflexivity].
Qed.

Lemma differs_from_stored_false current_coords real_coords :
  differs_from_stored current_coords real_coords = false
  ↔ ∃ current, current_coords = Some current
      ∧ Qcabs (cx current - cx real_coords) ≤ half
      ∧ Qcabs (cy current - cy real_coords) ≤ half.
Proof.
  unfold differs_from_stored. destruct current_coords as [current|].
  - rewrite orb_false_iff, !bool_decide_eq_false. split.
    + intros [Hx Hy]. exists current.
      split; [reflexivity|]. split; apply Qcnot_lt_le; assumption.
    + intros (c & [= <-] & Hx & Hy). split; apply Qcle_not_lt; assumption.
  - split; [discriminate | intros (c & [=] & _)].
Qed.

Lemma commit_positions_singleton point_name coords st :
  commit_positions {[ point_name := coords ]} st = set_adjustment point_name coords st.
Proof. unfold commit_positions. apply map_fold_singleton. Qed.

Lemma process_objects_at_rest (sqrt : Qc → Qc) st key_points real_size canvas_size acc objects :
  Forall (at_rest sqrt st key_points) objects →
  process_objects sqrt st key_points real_size canvas_size acc objects = Ok acc.
Proof.
  induction 1 as [|obj objects Hobj _ IH]; [reflexivity|].
  cbn [process_objects].
  replace (process_object sqrt st key_points real_size canvas_size acc obj) with (Ok acc).
  - exact IH.
  - unfold process_object. destruct Hobj as [->|Hlt]; [reflexivity|].
    destruct (target_name key_points obj); [|reflexivity].
    rewrite bool_decide_eq_false_2 by (apply Qclt_not_le, Hlt). reflexivity.
Qed.

Lemma process_objects_app (sqrt : Qc → Qc) st key_points real_size canvas_size acc
    (objects1 objects2 : list CanvasObject) :
  process_objects sqrt st key_points real_size canvas_size acc (objects1 ++ objects2)
  = process_objects sqrt st key_points real_size canvas_size acc objects1
      ≫= λ acc, process_objects sqrt st key_points real_size canvas_size acc objects2.
Proof.
  revert acc. induction objects1 as [|obj objects1 IH]; intros acc; [reflexivity|].
  cbn [process_objects app].
  destruct (process_object sqrt st key_points real_size canvas_size acc obj) as [acc'|e];
    [apply IH | reflexivity].
Qed.

(** C9: a drag that meets the movement threshold, among circles at rest,
    with its converted coordinate [real_coords].  It is committed, after the
    history snapshot, when the group has no override or the stored override
    differs from [real_coords] by more than 0.5 in x or in y; when the stored
    override is within 0.5 in both, adjustments, history and redo stack stay
    as they are; these are the only two outcomes. *)
Theorem drag_commit_condition (sqrt : Qc → Qc) (before after : list CanvasObject)
    (obj : CanvasObject) (point_name : string) (key_points : gset string)
    (real_size canvas_size : Z * Z) (st : SessionState) (real_coords : Coords) :
  Forall (at_rest sqrt st key_points) before →
  Forall (at_rest sqrt st key_points) after →
  target_name key_points obj = Some point_name →
  movement_threshold st ≤ move_distance sqrt obj →
  CoordinateConverter.scale_to_real (current_center obj) real_size canvas_size
    = Ok real_coords →
  let outcome :=
    update_enhanced_landmark_positions sqrt (Some (before ++ obj :: after))
      key_points real_size canvas_size st in
  let stored := manual_adjustments st !! point_name in
  ((stored = None
    ∨ ∃ current, stored = Some current
        ∧ (half < Qcabs (cx current - cx real_coords)
           ∨ half < Qcabs (cy current - cy real_coords))) →
   outcome = (true, set_adjustment point_name real_coords (save_adjustment_to_history st)))
  ∧ ((∃ current, stored = Some current
        ∧ Qcabs (cx current - cx real_coords) ≤ half
        ∧ Qcabs (cy current - cy real_coords) ≤ half) →
     outcome = (false, st))
  ∧ (outcome = (true, set_adjustment point_name real_coords (save_adjustment_to_history st))
     ∨ outcome = (false, st)).
Proof.
  intros Hbefore Hafter Htarget Hmove Hreal outcome stored.
  assert (Hout : outcome
                 = if differs_from_stored stored real_coords
                   then (true, set_adjustment point_name real_coords
                                 (save_adjustment_to_history st))
                   else (false, st)).
  { unfold outcome, update_enhanced_landmark_positions.
    rewrite process_objects_app, process_objects_at_rest by exact Hbefore.
    simpl. unfold process_object at 1. rewrite Htarget.
    rewrite bool_decide_eq_true_2 by exact Hmove.
    rewrite Hreal. simpl. fold stored.
    destruct (differs_from_stored stored real_coords); simpl;
      rewrite process_objects_at_rest by exact Hafter; [|reflexivity].
    rewrite insert_empty, commit_positions_singleton. reflexivity. }
  split; [|split].
  - intros H. apply differs_from_stored_true in H. rewrite Hout, H. reflexivity.
  - intros H. apply differs_from_stored_false in H. rewrite Hout, H. reflexivity.
  - rewrite Hout. destruct (differs_from_stored stored real_coords); [left | right]; reflexivity.
Qed.

(** A failed conversion commits nothing either. *)
Lemma drag_conversion_error (sqrt : Qc → Qc) (obj : CanvasObject) (point_name : string)
    (key_points : gset string) (real_size canvas_size : Z * Z) (st : SessionState) (e : exn) :
  target_name key_points obj = Some point_name →
  movement_threshold st ≤ move_distance sqrt obj →
  CoordinateConverter.scale_to_real (current_center obj) real_size canvas_size = Raise e →
  update_enhanced_landmark_positions sqrt (Some [obj]%list) key_points real_size canvas_size st
  = (false, st).
Proof.
  intros Htarget Hmove Hreal.
  unfold update_enhanced_landmark_positions. simpl.
  unfold process_object. rewrite Htarget.
  rewrite bool_decide_eq_true_2 by exact Hmove.
  rewrite Hreal. reflexivity.
Qed.

(** A drag below the movement threshold commits nothing. *)
Lemma drag_below_threshold (sqrt : Qc → Qc) (obj : CanvasObject)
    (key_points : gset string) (real_size canvas_size : Z * Z) (st : SessionState) :
  move_distance sqrt obj < movement_threshold st →
  update_enhanced_landmark_positions sqrt (Some [obj]%list) key_points real_size canvas_size st
  = (false, st).
Proof.
  intros Hmove.
  unfold update_enhanced_landmark_positions. simpl.
  unfold process_object. destruct (target_name key_points obj); [|reflexivity].
  rewrite bool_decide_eq_false_2 by (apply Qclt_not_le, Hmove). reflexivity.
Qed.

(** ** Adjusting landmarks *)


Section AdjustItems.
Variables (w h : Z).
Hypothesis (Hw : w ≠ 0%Z) (Hh : h ≠ 0%Z).




End AdjustItems.


(** ** The claims on sample inputs *)


(** After the 21 sample drags and 20 undos the nose tip is back at (1, 0),
    the state found by the 20th newest drag; the empty adjustment state that
    the first drag found is not in the history. *)
Example undo_reaches_back_twenty_edits :
  let st := undos 20 (edits sample_edits initialize_session_state) in
  manual_adjustments st = {[ "nose_tip" := mkCoords 1 0 ]}
  ∧ adjustment_history st = []
  ∧ ∅ ∉ adjustment_history (edits sample_edits initialize_session_state).
Proof. lazy zeta. by_eval. Qed.

(** Two snapshots in a row push one entry. *)
Example snapshot_twice_pushes_once :
  adjustment_history
    (save_adjustment_to_history (save_adjustment_to_history initialize_session_state))
  = [∅]%list.
Proof. by_eval. Qed.

Lemma redo_empty_after_undo_then_edit_witness :
  adjustment_redo_stack
    (edit (snd (undo_last_adjustment sample_session)) ("nose_bridge", mkCoords 1 1)) = []
  ∧ (∀ json_data key_points real_size canvas_size,
       fst (update_enhanced_landmark_positions sqrt_6dp json_data key_points real_size
              canvas_size (snd (undo_last_adjustment sample_session))) = true →
       adjustment_redo_stack
         (snd (update_enhanced_landmark_positions sqrt_6dp json_data key_points real_size
                 canvas_size (snd (undo_last_adjustment sample_session)))) = []).
Proof.
  apply (redo_empty_after_undo_then_edit sqrt_6dp sample_session ("nose_bridge", mkCoords 1 1)).
  eexists. reflexivity.
Defined.

(** The session of C1's failing input: the undo pushed the state (20, 20)
    on the redo stack, where it stays. *)
Example undo_pushes_on_redo_stack :
  let st := snd (undo_last_adjustment sample_session) in
  manual_adjustments st = {[ "nose_tip" := mkCoords (Z2Qc 10) (Z2Qc 10) ]}
  ∧ adjustment_history st = [∅]%list
  ∧ adjustment_redo_stack st = [ {[ "nose_tip" := mkCoords (Z2Qc 20) (Z2Qc 20) ]} ]%list.
Proof. lazy zeta. by_eval. Qed.

Lemma drag_commit_condition_witness :
  update_enhanced_landmark_positions sqrt_6dp (Some [sample_circle; resting_circle])
    {[ "nose_tip"; "nose_bridge" ]} (1200, 1600)%Z (600, 800)%Z initialize_session_state
  = (true,
     set_adjustment "nose_tip" (mkCoords (Z2Qc 224) (Z2Qc 224))
       (save_adjustment_to_history initialize_session_state)).
Proof.
  destruct (drag_commit_condition sqrt_6dp [] [resting_circle] sample_circle "nose_tip"
              {[ "nose_tip"; "nose_bridge" ]}
              (1200, 1600)%Z (600, 800)%Z initialize_session_state
              (mkCoords (Z2Qc 224) (Z2Qc 224))) as (Hcommit & _ & _).
  - constructor.
  - constructor; [right; by_eval | constructor].
  - by_eval.
  - by_eval.
  - by_eval.
  - apply Hcommit. left. reflexivity.
Defined.

(** The same drag over a stored override that is within 0.5 of it commits
    nothing. *)
Example drag_within_half_unit :
  let st := set_adjustment "nose_tip" (mkCoords (Q2Qc (4477 # 20)) (Z2Qc 224))
              initialize_session_state in
  update_enhanced_landmark_positions sqrt_6dp (Some [sample_circle; resting_circle])
    {[ "nose_tip"; "nose_bridge" ]} (1200, 1600)%Z (600, 800)%Z st
  = (false, st).
Proof. lazy zeta. by_eval. Qed.


(** The sample call: the copy is at reference 1, its entry 1 holds
    (50 / 200, 25 / 100) with the depth it had, and the input is as it
    was. *)
Example adjust_landmarks_sample :
  adjust_landmarks sample_store 0 {[ "nose_tip" := mkCoords (Z2Qc 50) (Z2Qc 25) ]}
    (100, 200)%Z
  = Ok (<[ 1%nat := [mkLandmark 0 0 0; mkLandmark (Q2Qc (1 # 4)) (Q2Qc (1 # 4)) (Z2Qc 3);
                     mkLandmark 1 1 0] ]> sample_store,
        1%nat).
Proof. by_eval. Qed.

(** * Further properties *)

(** ** The canvas *)

Lemma py_int_ratio (a b c : Z) :
  (0 ≤ a)%Z → (0 < b)%Z → (0 ≤ c)%Z →
  py_int (Z2Qc a / Z2Qc b * Z2Qc c) = (a * c / b)%Z.
Proof.
  intros Ha Hb Hc.
  assert (Heq : (this (Z2Qc a / Z2Qc b * Z2Qc c) == inject_Z (a * c) / inject_Z b)%Q).
  { to_Q. rewrite inject_Z_mult. field.
    intros E. change 0%Q with (inject_Z 0) in E. apply (proj1 (inject_Z_injective b 0)) in E. lia. }
  unfold py_int. rewrite bool_decide_eq_true_2.
  - rewrite (Qfloor_comp _ _ Heq), <- Zdiv_Qdiv. reflexivity.
  - unfold Qcle. rewrite Heq. simpl.
    apply Qle_shift_div_l.
    + change 0%Q with (inject_Z 0). rewrite <- Zlt_Qlt. exact Hb.
    + rewrite Qmult_0_l. change 0%Q with (inject_Z 0). rewrite <- Zle_Qle. lia.
Qed.

(** The canvas of an image with positive sides, in integer arithmetic. *)
Lemma calculate_canvas_dimensions_integers (h w channels : Z) :
  (0 < h)%Z → (0 < w)%Z →
  calculate_canvas_dimensions (h, w, channels)
  = Ok (if bool_decide (h < w)%Z
        then (600, Z.min (h * 600 / w) 800)%Z
        else (w * Z.min 800 (h * 600 / w) / h, Z.min 800 (h * 600 / w))%Z).
Proof.
  intros Hh Hw. unfold calculate_canvas_dimensions, CANVAS_WIDTH, CANVAS_HEIGHT.
  assert (Hnz : ∀ z, (0 < z)%Z → Z2Qc z ≠ 0)
    by (intros z Hz; apply Qc_pos_neq0, Z2Qc_pos, Hz).
  case_bool_decide.
  - rewrite py_truediv_ok by (apply Hnz, Hw). simpl.
    rewrite py_int_ratio by lia. reflexivity.
  - rewrite !py_truediv_ok by (apply Hnz; assumption). simpl.
    rewrite (py_int_ratio h w 600) by lia.
    rewrite py_int_ratio; [reflexivity | lia | lia |].
    apply Z.min_glb; [lia|]. apply Z.div_pos; lia.
Qed.

(** X1: for an image with positive sides the canvas is at most 600 wide and
    800 high; a landscape image gets width 600 and a height below 600, any
    other image a height between 600 and 800. *)
Theorem canvas_within_limits (h w channels : Z) :
  (0 < h)%Z → (0 < w)%Z →
  ∃ canvas_w canvas_h,
    calculate_canvas_dimensions (h, w, channels) = Ok (canvas_w, canvas_h)
    ∧ (0 ≤ canvas_w ≤ 600)%Z ∧ (0 ≤ canvas_h ≤ 800)%Z
    ∧ ((h < w)%Z → canvas_w = 600%Z ∧ (canvas_h < 600)%Z)
    ∧ ((w ≤ h)%Z → (600 ≤ canvas_h)%Z).
Proof.
  intros Hh Hw. rewrite calculate_canvas_dimensions_integers by assumption.
  assert (Hq : (0 ≤ h * 600 / w)%Z) by (apply Z.div_pos; lia).
  case_bool_decide as Hland.
  - eexists _, _. split; [reflexivity|].
    assert (h * 600 / w < 600)%Z by (apply Z.div_lt_upper_bound; lia).
    repeat split; lia.
  - eexists _, _. split; [reflexivity|].
    assert (600 ≤ h * 600 / w)%Z by (apply Z.div_le_lower_bound; lia).
    set (ch := Z.min 800 (h * 600 / w)) in *.
    assert (Hch : (600 ≤ ch ≤ 800)%Z) by (unfold ch; lia).
    assert (ch ≤ h * 600 / w)%Z by (unfold ch; lia).
    assert (0 ≤ w * ch / h)%Z by (apply Z.div_pos; lia).
    assert (w * ch / h ≤ 600)%Z.
    { apply Z.div_le_upper_bound; [lia|].
      assert (w * (h * 600 / w) ≤ h * 600)%Z by (apply Z.mul_div_le; lia).
      nia. }
    repeat split; lia.
Qed.

Lemma canvas_within_limits_witness :
  ∃ canvas_w canvas_h,
    calculate_canvas_dimensions (1080, 1920, 3)%Z = Ok (canvas_w, canvas_h)
    ∧ (0 ≤ canvas_w ≤ 600)%Z ∧ (0 ≤ canvas_h ≤ 800)%Z
    ∧ ((1080 < 1920)%Z → canvas_w = 600%Z ∧ (canvas_h < 600)%Z)
    ∧ ((1920 ≤ 1080)%Z → (600 ≤ canvas_h)%Z).
Proof. apply (canvas_within_limits 1080 1920 3); lia. Defined.

(** X2: the canvas of an image with positive sides has a side of length 0
    exactly when the image is more than 600 times wider than high (height
    0), or so narrow that its width times the canvas height is below its
    height (width 0). *)
Theorem canvas_degenerate_iff (h w channels : Z) :
  (0 < h)%Z → (0 < w)%Z →
  ∃ canvas_w canvas_h,
    calculate_canvas_dimensions (h, w, channels) = Ok (canvas_w, canvas_h)
    ∧ (canvas_h = 0%Z ↔ (600 * h < w)%Z)
    ∧ (canvas_w = 0%Z ↔ (w ≤ h ∧ w * canvas_h < h)%Z).
Proof.
  intros Hh Hw. rewrite calculate_canvas_dimensions_integers by assumption.
  assert (Hq : (0 ≤ h * 600 / w)%Z) by (apply Z.div_pos; lia).
  assert (Hsmall : ∀ a b, (0 ≤ a)%Z → (0 < b)%Z → (a / b = 0 ↔ a < b)%Z).
  { intros a b Ha Hb. rewrite Z.div_small_iff by lia. lia. }
  case_bool_decide as Hland; eexists _, _; (split; [reflexivity|]).
  - split; [|lia].
    assert (h * 600 / w < 600)%Z by (apply Z.div_lt_upper_bound; lia).
    rewrite Z.min_l by lia. rewrite Hsmall by lia. lia.
  - assert (600 ≤ h * 600 / w)%Z by (apply Z.div_le_lower_bound; lia).
    split; [lia|].
    set (ch := Z.min 800 (h * 600 / w)) in *.
    rewrite Hsmall by lia. lia.
Qed.

Lemma canvas_degenerate_iff_witness :
  ∃ canvas_w canvas_h,
    calculate_canvas_dimensions (1, 601, 3)%Z = Ok (canvas_w, canvas_h)
    ∧ (canvas_h = 0%Z ↔ (600 * 1 < 601)%Z)
    ∧ (canvas_w = 0%Z ↔ (601 ≤ 1 ∧ 601 * canvas_h < 1)%Z).
Proof. apply (canvas_degenerate_iff 1 601 3); lia. Defined.

(** ** The integrity check *)

Lemma scale_to_canvas_zero_model p real_size canvas_size :
  real_size.1 = 0%Z ∨ real_size.2 = 0%Z →
  CoordinateConverter.scale_to_canvas p real_size canvas_size = Raise ZeroDivisionError.
Proof.
  destruct real_size as [rw rh], canvas_size as [cw ch]. simpl. intros Hzero.
  unfold CoordinateConverter.scale_to_canvas, py_truediv.
  repeat (case_bool_decide; simpl; try reflexivity).
  rewrite ?Z2Qc_eq0 in *. lia.
Qed.

Lemma scale_to_real_zero_display p real_size canvas_size :
  canvas_size.1 = 0%Z ∨ canvas_size.2 = 0%Z →
  CoordinateConverter.scale_to_real p real_size canvas_size = Raise ZeroDivisionError.
Proof.
  destruct real_size as [rw rh], canvas_size as [cw ch]. simpl. intros Hzero.
  unfold CoordinateConverter.scale_to_real, py_truediv.
  repeat (case_bool_decide; simpl; try reflexivity).
  rewrite ?Z2Qc_eq0 in *. lia.
Qed.

(** What the integrity check computes. *)
Lemma verify_conversion_integrity_true p real_size canvas_size :
  CoordinateConverter.verify_conversion_integrity p real_size canvas_size = true
  ↔ ∃ c r,
      CoordinateConverter.scale_to_canvas p real_size canvas_size = Ok c
      ∧ CoordinateConverter.scale_to_real c real_size canvas_size = Ok r
      ∧ Qcabs (cx p - cx r) ≤ 1 ∧ Qcabs (cy p - cy r) ≤ 1.
Proof.
  unfold CoordinateConverter.verify_conversion_integrity.
  destruct (CoordinateConverter.scale_to_canvas p real_size canvas_size) as [c|e] eqn:Hc;
    simpl.
  - destruct (CoordinateConverter.scale_to_real c real_size canvas_size) as [r|e] eqn:Hr;
      simpl.
    + rewrite andb_true_iff, !bool_decide_eq_true. split.
      * intros [Hx Hy]. exists c, r. split; [reflexivity|]. split; [exact Hr|].
        split; assumption.
      * intros (c' & r' & [= <-] & Hr' & Hx & Hy). rewrite Hr in Hr'.
        injection Hr' as <-. split; assumption.
    + split; [discriminate|]. intros (c' & r' & [= <-] & Hr' & _).
      rewrite Hr in Hr'. discriminate.
  - split; [discriminate | intros (c' & r' & [=] & _)].
Qed.




(** X4: when the model size or the display size has a side of length 0, the
    integrity check answers [False] for every point: the division by zero
    is caught. *)
Theorem verify_conversion_integrity_zero_side (p : Coords) (real_size canvas_size : Z * Z) :
  real_size.1 = 0%Z ∨ real_size.2 = 0%Z ∨ canvas_size.1 = 0%Z ∨ canvas_size.2 = 0%Z →
  CoordinateConverter.verify_conversion_integrity p real_size canvas_size = false.
Proof.
  intros Hzero. apply not_true_is_false. intros Hv.
  apply verify_conversion_integrity_true in Hv as (c & r & Hc & Hr & _).
  destruct (decide (real_size.1 = 0%Z ∨ real_size.2 = 0%Z)) as [Hreal|Hreal].
  - rewrite scale_to_canvas_zero_model in Hc by exact Hreal. discriminate.
  - rewrite scale_to_real_zero_display in Hr by tauto. discriminate.
Qed.

Lemma verify_conversion_integrity_zero_side_witness :
  CoordinateConverter.verify_conversion_integrity (mkCoords (Z2Qc 100) (Z2Qc 100))
    (601, 1)%Z (600, 0)%Z = false.
Proof.
  apply (verify_conversion_integrity_zero_side (mkCoords (Z2Qc 100) (Z2Qc 100))
           (601, 1)%Z (600, 0)%Z).
  simpl. lia.
Defined.



(** ** Drags on a degenerate canvas *)

(** X6: when the display size has a side of length 0, the drag handler
    commits nothing, whatever the circles: it answers [False] and leaves the
    session as it is. *)
Theorem drag_on_degenerate_canvas (sqrt : Qc → Qc) (json_data : option (list CanvasObject))
    (key_points : gset string) (real_size canvas_size : Z * Z) (st : SessionState) :
  canvas_size.1 = 0%Z ∨ canvas_size.2 = 0%Z →
  update_enhanced_landmark_positions sqrt json_data key_points real_size canvas_size st
  = (false, st).
Proof.
  intros Hzero. unfold update_enhanced_landmark_positions.
  destruct json_data as [objects|]; [|reflexivity].
  assert (Hloop : process_objects sqrt st key_points real_size canvas_size (∅, false) objects
                  = Ok (∅, false)
                  ∨ ∃ e, process_objects sqrt st key_points real_size canvas_size
                           (∅, false) objects = Raise e).
  { induction objects as [|obj objects IH]; [left; reflexivity|].
    cbn [process_objects].
    assert (Hobj : process_object sqrt st key_points real_size canvas_size (∅, false) obj
                   = Ok (∅, false)
                   ∨ ∃ e, process_object sqrt st key_points real_size canvas_size
                            (∅, false) obj = Raise e).
    { unfold process_object.
      destruct (target_name key_points obj); [|left; reflexivity].
      case_bool_decide; [|left; reflexivity].
      rewrite scale_to_real_zero_display by exact Hzero.
      right. eexists. reflexivity. }
    destruct Hobj as [->|[e ->]]; [exact IH|].
    right. eexists. reflexivity. }
  destruct Hloop as [->|[e ->]]; reflexivity.
Qed.

Lemma drag_on_degenerate_canvas_witness :
  update_enhanced_landmark_positions sqrt_6dp (Some [sample_circle; resting_circle])
    {[ "nose_tip"; "nose_bridge" ]} (601, 1)%Z (600, 0)%Z initialize_session_state
  = (false, initialize_session_state).
Proof.
  apply (drag_on_degenerate_canvas sqrt_6dp (Some [sample_circle; resting_circle])
           {[ "nose_tip"; "nose_bridge" ]} (601, 1)%Z (600, 0)%Z initialize_session_state).
  right. reflexivity.
Defined.

(** ** The validators *)

Section ValidatorProofs.
Variable sqrt : Qc → Qc.
Variable atan2 : Qc → Qc → Qc.
Variable degrees : Qc → Qc.
Variable format_1f : Qc → string.

(** X7: the validator of [app.py] always reports the three metrics, gives at
    most three warnings, and answers valid exactly when it gives no warning,
    which is exactly when the nose length is within [10, 200], the nostril
    distance within [5, 100] and the angle at most 30. *)
Theorem validation_valid_iff_in_range (nose_tip nose_bridge left_nostril right_nostril : Coords) :
  let r := LandmarkAnalyzer.validate_anatomical_constraints sqrt atan2 degrees format_1f
             nose_tip nose_bridge left_nostril right_nostril in
  ∃ nose_length nostril_distance nose_angle_degrees,
    metrics r = {[ "nose_length" := nose_length; "nostril_distance" := nostril_distance;
                   "nose_angle_degrees" := nose_angle_degrees ]}
    ∧ (length (warnings r) ≤ 3)%nat
    ∧ (is_valid r = true ↔ warnings r = [])
    ∧ (is_valid r = true
       ↔ (Z2Qc 10 ≤ nose_length ∧ nose_length ≤ Z2Qc 200)
         ∧ (Z2Qc 5 ≤ nostril_distance ∧ nostril_distance ≤ Z2Qc 100)
         ∧ nose_angle_degrees ≤ Z2Qc 30).
Proof.
  intros r. unfold r, LandmarkAnalyzer.validate_anatomical_constraints.
  set (nl := sqrt ((cx nose_tip - cx nose_bridge) ^ 2 + _)).
  set (nd := sqrt ((cx left_nostril - cx right_nostril) ^ 2 + _)).
  set (na := Qcabs _).
  exists nl, nd, na. split; [reflexivity|]. simpl.
  assert (Hle : ∀ a b : Qc, ¬ a < b ↔ b ≤ a)
    by (intros a b; split; [apply Qcnot_lt_le | apply Qcle_not_lt]).
  repeat case_bool_decide; simpl.
  all: try (match goal with H : length _ = 0%nat |- _ => simpl in H; discriminate H end).
  all: try (match goal with H : length _ ≠ 0%nat |- _ => simpl in H; congruence end).
  all: rewrite ?Hle in *.
  all: split; [lia|].
  all: split; [split; intros Hx; first [reflexivity | discriminate Hx]|].
  all: split; [first [discriminate | intros _; repeat split; assumption]
              | first [reflexivity | intros [[? ?] [[? ?] ?]]; exfalso]].
  all: repeat match goal with
              | H1 : ?a < ?b, H2 : ?b ≤ ?a |- _ => exact (Qclt_not_le _ _ H1 H2)
              end.
Qed.

(** X8: the two front ends agree on every override map.  Where the page of
    [app.py] validates, the validator of [app_final.py] returns the same
    validity, warnings and metrics; where the page of [app.py] shows nothing
    because a required point is missing, the validator of [app_final.py]
    returns valid, with no warning and no metric. *)
Theorem validators_agree (st : SessionState) :
  match validate_anatomical_constraints_ui sqrt atan2 degrees format_1f st with
  | Some r =>
    validate_anatomical_constraints sqrt atan2 degrees format_1f (manual_adjustments st) = r
    ∧ Forall (λ point, is_Some (manual_adjustments st !! point)) required_points
  | None =>
    validate_anatomical_constraints sqrt atan2 degrees format_1f (manual_adjustments st)
    = {| is_valid := true; warnings := []; metrics := ∅ |}
    ∧ Exists (λ point, manual_adjustments st !! point = None) required_points
  end.
Proof.
  unfold validate_anatomical_constraints_ui, validate_anatomical_constraints,
    LandmarkAnalyzer.validate_anatomical_constraints.
  destruct (forallb _ required_points) eqn:Hall; simpl.
  - split.
    + reflexivity.
    + rewrite forallb_forall in Hall. apply Forall_forall. intros point Hin.
      apply (bool_decide_eq_true_1 _), Hall, Hin.
  - split; [reflexivity|].
    assert (Hnot : ¬ Forall (λ point, is_Some (manual_adjustments st !! point))
                     required_points).
    { intros HF. rewrite <- not_true_iff_false in Hall. apply Hall.
      apply forallb_forall. intros point Hin. apply bool_decide_eq_true_2.
      rewrite Forall_forall in HF. apply HF, Hin. }
    apply not_Forall_Exists in Hnot; [|apply _].
    eapply Exists_impl; [|exact Hnot].
    intros point Hp. simpl in Hp. apply eq_None_not_Some. exact Hp.
Qed.

End ValidatorProofs.

(** ** Snapshots and undo *)

(** X9: a snapshot taken twice in a row is the snapshot taken once. *)
Theorem save_adjustment_to_history_idempotent (st : SessionState) :
  save_adjustment_to_history (save_adjustment_to_history st)
  = save_adjustment_to_history st.
Proof.
  pose proof (save_top st) as Htop.
  pose proof (save_keeps_manual st) as Hman.
  destruct (save_cases (save_adjustment_to_history st)) as [[_ Heq]|[Hne _]].
  - exact Heq.
  - rewrite Htop, Hman in Hne. done.
Qed.

Section UndoProofs.
Variable sqrt : Qc → Qc.

Lemma undo_top st previous_state :
  list.last (adjustment_history st) = Some previous_state →
  fst (undo_last_adjustment st) = true
  ∧ manual_adjustments (snd (undo_last_adjustment st)) = previous_state
  ∧ adjustment_history (snd (undo_last_adjustment st)) = removelast (adjustment_history st).
Proof.
  intros Hlast. unfold undo_last_adjustment. rewrite Hlast. simpl. repeat split.
Qed.

(** X10: an undo right after a forward edit succeeds and brings the
    overrides back to what they were before the edit, for the
    snapshot-then-override and for a drag that commits.  When the edit
    pushed its snapshot on a history that was not full, the undo also
    brings the history back, and the redo stack holds the undone state. *)
Theorem undo_restores_overrides (st : SessionState) (e : string * Coords) :
  fst (undo_last_adjustment (edit st e)) = true
  ∧ manual_adjustments (snd (undo_last_adjustment (edit st e))) = manual_adjustments st
  ∧ (∀ json_data key_points real_size canvas_size,
       let dragged :=
         update_enhanced_landmark_positions sqrt json_data key_points real_size
           canvas_size st in
       fst dragged = true →
       fst (undo_last_adjustment (snd dragged)) = true
       ∧ manual_adjustments (snd (undo_last_adjustment (snd dragged)))
         = manual_adjustments st)
  ∧ (list.last (adjustment_history st) ≠ Some (manual_adjustments st) →
     (length (adjustment_history st) < 20)%nat →
     adjustment_history (snd (undo_last_adjustment (edit st e))) = adjustment_history st
     ∧ adjustment_redo_stack (snd (undo_last_adjustment (edit st e)))
       = [manual_adjustments (edit st e)]%list).
Proof.
  assert (Hedit : list.last (adjustment_history (edit st e)) = Some (manual_adjustments st))
    by (unfold edit; simpl; apply save_top).
  destruct (undo_top _ _ Hedit) as (Hok & Hman & Hhist).
  split; [exact Hok|]. split; [exact Hman|]. split.
  - intros json_data key_points real_size canvas_size dragged Hcommit.
    destruct (drag_cases sqrt json_data key_points real_size canvas_size st)
      as [Hno|[updated_positions Hyes]]; unfold dragged in *.
    + rewrite Hno in Hcommit. discriminate.
    + rewrite Hyes. simpl.
      destruct (commit_positions_fields updated_positions (save_adjustment_to_history st))
        as (_ & Hh & _ & _).
      assert (Htop : list.last (adjustment_history
                                  (commit_positions updated_positions
                                     (save_adjustment_to_history st)))
                     = Some (manual_adjustments st))
        by (rewrite Hh; apply save_top).
      destruct (undo_top _ _ Htop) as (Hok' & Hman' & _). split; assumption.
  - intros Htop Hroom. rewrite Hhist.
    unfold undo_last_adjustment. rewrite Hedit. simpl.
    destruct (save_cases st) as [[Hdup _]|[_ Hsave]]; [done|].
    rewrite Hsave. simpl.
    case_bool_decide as Hfull; [unfold AppConfig.MAX_HISTORY_SIZE in Hfull; lia|].
    rewrite removelast_last. split; reflexivity.
Qed.

End UndoProofs.

(** ** What a drag writes *)

Lemma target_name_Some key_points obj name :
  target_name key_points obj = Some name →
  obj_type obj = Some "circle" ∧ obj_name obj = Some name
  ∧ name ≠ "" ∧ name ∈ key_points.
Proof.
  unfold target_name. case_bool_decide as Htype; [|discriminate].
  destruct (obj_name obj) as [n|]; [|discriminate].
  destruct (bool_decide (n ≠ "")) eqn:Hn; [|discriminate].
  destruct (bool_decide (n ∈ key_points)) eqn:Hk; [|discriminate].
  simpl. intros [= <-].
  apply bool_decide_eq_true_1 in Hn, Hk. repeat split; assumption.
Qed.

Section DragFrame.
Variable sqrt : Qc → Qc.

(** Where the entries of [updated_positions] come from. *)
Lemma process_objects_origin st key_points real_size canvas_size acc objects
    updated_positions state_changed :
  process_objects sqrt st key_points real_size canvas_size acc objects
    = Ok (updated_positions, state_changed) →
  ∀ name coords, updated_positions !! name = Some coords →
    acc.1 !! name = Some coords
    ∨ ∃ obj, obj ∈ objects
        ∧ target_name key_points obj = Some name
        ∧ movement_threshold st ≤ move_distance sqrt obj
        ∧ CoordinateConverter.scale_to_real (current_center obj) real_size canvas_size
          = Ok coords.
Proof.
  revert acc. induction objects as [|obj objects IH]; intros acc Hrun name coords Hget.
  - injection Hrun as ->. left. exact Hget.
  - cbn [process_objects] in Hrun.
    destruct (process_object sqrt st key_points real_size canvas_size acc obj)
      as [acc'|e] eqn:Hobj; [|discriminate].
    simpl in Hrun. destruct (IH acc' Hrun name coords Hget) as [Hacc|(o & Hin & Ho)].
    + unfold process_object in Hobj.
      destruct (target_name key_points obj) as [point_name|] eqn:Htarget;
        [|injection Hobj as <-; left; exact Hacc].
      case_bool_decide as Hmove; [|injection Hobj as <-; left; exact Hacc].
      destruct (CoordinateConverter.scale_to_real _ _ _) as [real_coords|] eqn:Hreal;
        [|discriminate].
      simpl in Hobj.
      destruct (differs_from_stored _ _); injection Hobj as <-; [|left; exact Hacc].
      simpl in Hacc. destruct (decide (point_name = name)) as [->|Hne].
      * rewrite lookup_insert_eq in Hacc. injection Hacc as <-.
        right. exists obj. split; [apply list.elem_of_cons; left; reflexivity|].
        repeat split; assumption.
      * rewrite lookup_insert_ne in Hacc by exact Hne. left. exact Hacc.
    + right. exists o. split; [apply list.elem_of_cons; right; exact Hin | exact Ho].
Qed.

(** X11: what the drag handler can change.  The movement threshold stays;
    an override after the call is the override before the call, or the
    converted center of a circle of the list that is a key point and moved
    by at least the threshold; so the override of a name that is not a key
    point is never touched. *)
Theorem drag_changes_only_dragged_key_points (objects : list CanvasObject)
    (key_points : gset string) (real_size canvas_size : Z * Z) (st : SessionState) :
  let st' := snd (update_enhanced_landmark_positions sqrt (Some objects) key_points
                    real_size canvas_size st) in
  movement_threshold st' = movement_threshold st
  ∧ (∀ name coords, manual_adjustments st' !! name = Some coords →
       manual_adjustments st !! name = Some coords
       ∨ ∃ obj, obj ∈ objects
           ∧ obj_name obj = Some name ∧ name ∈ key_points
           ∧ movement_threshold st ≤ move_distance sqrt obj
           ∧ CoordinateConverter.scale_to_real (current_center obj) real_size canvas_size
             = Ok coords)
  ∧ (∀ name, name ∉ key_points →
       manual_adjustments st' !! name = manual_adjustments st !! name).
Proof.
  intros st'. unfold st', update_enhanced_landmark_positions.
  destruct (process_objects sqrt st key_points real_size canvas_size (∅, false) objects)
    as [[updated_positions [|]]|e] eqn:Hrun; simpl;
    try (split; [reflexivity|]; split; [intros ? ? ?; left; assumption | reflexivity]).
  destruct (commit_positions_fields updated_positions (save_adjustment_to_history st))
    as (Hman & _ & _ & Hthr).
  rewrite Hman, Hthr, save_keeps_manual, save_keeps_threshold.
  pose proof (process_objects_origin _ _ _ _ _ _ _ _ Hrun) as Horigin. simpl in Horigin.
  split; [reflexivity|]. split.
  - intros name coords Hget. apply lookup_union_Some_raw in Hget as [Hupd|[_ Hold]].
    + destruct (Horigin name coords Hupd) as [Hempty|(obj & Hin & Htarget & Hmove & Hreal)].
      * rewrite lookup_empty in Hempty. discriminate.
      * right. exists obj. apply target_name_Some in Htarget as (_ & Hname & _ & Hkey).
        repeat split; assumption.
    + left. exact Hold.
  - intros name Hname. apply lookup_union_r.
    destruct (updated_positions !! name) as [coords|] eqn:Hupd; [|reflexivity].
    destruct (Horigin name coords Hupd) as [Hempty|(obj & _ & Htarget & _)].
    + rewrite lookup_empty in Hempty. discriminate.
    + apply target_name_Some in Htarget as (_ & _ & _ & Hkey). done.
Qed.

End DragFrame.

(** ** Which groups resolve, and where *)

(** The pixel points that [calculate_group_center] averages. *)
Lemma calculate_group_center_Some landmark group_indices image_shape :
  is_Some (calculate_group_center (Some landmark) group_indices image_shape)
  ↔ Exists (λ idx, idx < length landmark)%nat group_indices.
Proof.
  split.
  - intros Hsome.
    destruct (decide (Exists (λ idx, idx < length landmark)%nat group_indices))
      as [Hex|Hnex]; [exact Hex|].
    rewrite calculate_group_center_out_of_range in Hsome; [destruct Hsome; discriminate|].
    intros lm [= <-]. apply Forall_forall. intros idx Hin.
    apply Nat.le_ngt. intros Hlt. apply Hnex, Exists_exists. exists idx. split; assumption.
  - intros Hex. unfold calculate_group_center.
    destruct group_indices as [|idx0 rest]; [inversion Hex|].
    destruct image_shape as [h w].
    set (pixel := λ idx : nat, _).
    assert (Hne : flat_map pixel (idx0 :: rest) ≠ []).
    { induction Hex as [idx l Hidx|idx l _ IH]; simpl.
      - unfold pixel at 1. rewrite bool_decide_eq_true_2 by exact Hidx.
        destruct (lookup_lt_is_Some_2 landmark idx Hidx) as [point ->]. discriminate.
      - intros Happ. apply app_eq_nil in Happ as [_ Happ]. exact (IH Happ). }
    destruct (flat_map pixel (idx0 :: rest)); [done | eexists; reflexivity].
Qed.

(** X12: a group is in the aggregate exactly when one of its indices is
    below the length of the landmark sequence; all six groups are there
    exactly when the sequence has more than 384 entries. *)
Theorem aggregate_resolves_iff_index_in_range (landmark : list NormalizedLandmark)
    (image_shape : Z * Z) :
  (∀ point_name,
     point_name ∈ dom (_get_enhanced_landmarks_internal (Some landmark) image_shape)
     ↔ ∃ group_indices, landmark_group point_name = Some group_indices
         ∧ Exists (λ idx, idx < length landmark)%nat group_indices)
  ∧ ((384 < length landmark)%nat
     ↔ ∀ point_name, is_Some (landmark_group point_name) →
         point_name ∈ dom (_get_enhanced_landmarks_internal (Some landmark) image_shape)).
Proof.
  assert (Hdom : ∀ point_name,
     point_name ∈ dom (_get_enhanced_landmarks_internal (Some landmark) image_shape)
     ↔ ∃ group_indices, landmark_group point_name = Some group_indices
         ∧ Exists (λ idx, idx < length landmark)%nat group_indices).
  { intros point_name. rewrite elem_of_dom.
    unfold _get_enhanced_landmarks_internal, landmark_group.
    rewrite enhanced_fold_lookup by apply LANDMARK_GROUPS_NoDup. rewrite lookup_empty.
    destruct (list_to_map AppConfig.LANDMARK_GROUPS !! point_name) as [idxs|].
    - pose proof (calculate_group_center_Some landmark idxs image_shape) as Hc.
      destruct (calculate_group_center (Some landmark) idxs image_shape) as [c|]; split.
      + intros _. exists idxs. split; [reflexivity | apply Hc; eexists; reflexivity].
      + intros _. eexists; reflexivity.
      + intros [? [=]].
      + intros (idxs' & [= <-] & Hex). apply Hc in Hex as [? [=]].
    - split; [intros [? [=]] | intros (? & [=] & _)]. }
  split; [exact Hdom|]. split.
  - intros Hlen point_name [idxs Hgroup]. apply Hdom. exists idxs. split; [exact Hgroup|].
    assert (Hall : map_Forall (λ _ idxs, Exists (λ idx, idx ≤ 384)%nat idxs)
                     (list_to_map AppConfig.LANDMARK_GROUPS : gmap string (list nat)))
      by by_eval.
    pose proof (Hall point_name idxs Hgroup) as Hex. simpl in Hex.
    eapply Exists_impl; [|exact Hex].
    intros idx Hidx. simpl in Hidx. lia.
  - intros Hall.
    assert (Hgroup : landmark_group "right_eye_center" = Some [386; 385; 384; 398]%nat)
      by reflexivity.
    assert (Hright : is_Some (landmark_group "right_eye_center")) by (eexists; exact Hgroup).
    apply Hall, Hdom in Hright as (idxs & Hidxs & Hex).
    rewrite Hgroup in Hidxs. injection Hidxs as <-.
    apply Exists_exists in Hex as (idx & Hin & Hlt).
    simpl in Hin. destruct Hin as [<-|[<-|[<-|[<-|[]]]]]; lia.
Qed.

Lemma Z2Qc_succ (n : nat) : Z2Qc (Z.of_nat (S n)) = Z2Qc (Z.of_nat n) + 1.
Proof.
  apply Qc_eq_Q. to_Q. rewrite Nat2Z.inj_succ, <- Z.add_1_r, inject_Z_plus. reflexivity.
Qed.

Lemma foldl_Qcplus_bounds (a b : Qc) (l : list Qc) (acc : Qc) :
  Forall (λ v, a ≤ v ∧ v ≤ b) l →
  acc + a * Z2Qc (Z.of_nat (length l)) ≤ foldl Qcplus acc l
  ∧ foldl Qcplus acc l ≤ acc + b * Z2Qc (Z.of_nat (length l)).
Proof.
  intros Hall. revert acc. induction Hall as [|v l [Hav Hvb] _ IH]; intros acc.
  - simpl. change (Z2Qc 0) with 0. rewrite !Qcmult_0_r, Qcplus_0_r.
    split; apply Qcle_refl.
  - cbn [foldl length]. rewrite Z2Qc_succ. destruct (IH (acc + v)) as [Hlo Hhi]. split.
    + eapply Qcle_trans; [|exact Hlo].
      replace (acc + a * (Z2Qc (Z.of_nat (length l)) + 1))
        with ((acc + a) + a * Z2Qc (Z.of_nat (length l))) by ring.
      apply Qcplus_le_compat; [|apply Qcle_refl].
      apply Qcplus_le_compat; [apply Qcle_refl | exact Hav].
    + eapply Qcle_trans; [exact Hhi|].
      replace (acc + b * (Z2Qc (Z.of_nat (length l)) + 1))
        with ((acc + b) + b * Z2Qc (Z.of_nat (length l))) by ring.
      apply Qcplus_le_compat; [|apply Qcle_refl].
      apply Qcplus_le_compat; [apply Qcle_refl | exact Hvb].
Qed.

(** The mean of a non-empty list lies between bounds of its elements. *)
Lemma mean_bounds (a b : Qc) (l : list Qc) :
  l ≠ [] → Forall (λ v, a ≤ v ∧ v ≤ b) l →
  a ≤ py_sum l / Z2Qc (Z.of_nat (length l))
  ∧ py_sum l / Z2Qc (Z.of_nat (length l)) ≤ b.
Proof.
  intros Hne Hall.
  assert (Hn : 0 < Z2Qc (Z.of_nat (length l))).
  { apply Z2Qc_pos. destruct l; [done | simpl; lia]. }
  destruct (foldl_Qcplus_bounds a b l 0 Hall) as [Hlo Hhi].
  rewrite Qcplus_0_l in Hlo, Hhi. fold (py_sum l) in Hlo, Hhi.
  set (n := Z2Qc (Z.of_nat (length l))) in *.
  assert (Hdiv : py_sum l / n * n = py_sum l) by (field; apply Qc_pos_neq0, Hn).
  split; apply (Qcmult_lt_0_le_reg_r _ _ n Hn); rewrite Hdiv; assumption.
Qed.

Lemma Forall_flat_map {A B} (P : B → Prop) (f : A → list B) (l : list A) :
  (∀ a, Forall P (f a)) → Forall P (flat_map f l).
Proof.
  intros Hf. induction l as [|a l IH]; simpl; [constructor|].
  apply Forall_app. split; [apply Hf | exact IH].
Qed.

(** X13: when every landmark is in the unit square and the image sides are
    not negative, the center of every group that resolves lies inside the
    image: between 0 and the width in x, between 0 and the height in y. *)
Theorem group_center_inside_image (landmark : list NormalizedLandmark)
    (group_indices : list nat) (h w : Z) (center : Coords) :
  Forall (λ point, (0 ≤ lm_x point ∧ lm_x point ≤ 1) ∧ (0 ≤ lm_y point ∧ lm_y point ≤ 1))
         landmark →
  (0 ≤ h)%Z → (0 ≤ w)%Z →
  calculate_group_center (Some landmark) group_indices (h, w) = Some center →
  (0 ≤ cx center ∧ cx center ≤ Z2Qc w) ∧ (0 ≤ cy center ∧ cy center ≤ Z2Qc h).
Proof.
  intros Hunit Hh Hw. unfold calculate_group_center.
  destruct group_indices as [|idx0 rest]; [discriminate|].
  set (pixel := λ idx : nat, _).
  assert (Hpix : Forall (λ p, (0 ≤ cx p ∧ cx p ≤ Z2Qc w) ∧ (0 ≤ cy p ∧ cy p ≤ Z2Qc h))
                        (flat_map pixel (idx0 :: rest))).
  { apply Forall_flat_map. intros idx. unfold pixel.
    case_bool_decide; [|constructor].
    destruct (landmark !! idx) as [point|] eqn:Hpoint; [|constructor].
    constructor; [|constructor]. simpl.
    rewrite Forall_forall in Hunit.
    destruct (Hunit point) as [[Hx0 Hx1] [Hy0 Hy1]];
      [apply list_elem_of_In, list_elem_of_lookup; eexists; exact Hpoint|].
    assert (Hw' : 0 ≤ Z2Qc w) by (apply (Z2Qc_le 0 w), Hw).
    assert (Hh' : 0 ≤ Z2Qc h) by (apply (Z2Qc_le 0 h), Hh).
    repeat split.
    - apply Qcmult_nonneg_nonneg; assumption.
    - rewrite <- (Qcmult_1_l (Z2Qc w)) at 2. apply Qcmult_le_compat_r; assumption.
    - apply Qcmult_nonneg_nonneg; assumption.
    - rewrite <- (Qcmult_1_l (Z2Qc h)) at 2. apply Qcmult_le_compat_r; assumption. }
  destruct (flat_map pixel (idx0 :: rest)) as [|p0 points] eqn:Hpoints; [discriminate|].
  intros [= <-]. cbn [cx cy]. split.
  - change (cx p0 :: map cx points) with (map cx (p0 :: points)).
    replace (S (length points)) with (length (map cx (p0 :: points)))
      by (rewrite length_map; reflexivity).
    apply mean_bounds; [discriminate|].
    apply Forall_fmap. eapply Forall_impl; [|exact Hpix]. intros p [Hp _]. exact Hp.
  - change (cy p0 :: map cy points) with (map cy (p0 :: points)).
    replace (S (length points)) with (length (map cy (p0 :: points)))
      by (rewrite length_map; reflexivity).
    apply mean_bounds; [discriminate|].
    apply Forall_fmap. eapply Forall_impl; [|exact Hpix]. intros p [_ Hp]. exact Hp.
Qed.

Lemma group_center_inside_image_witness :
  (0 ≤ Z2Qc 20 ∧ Z2Qc 20 ≤ Z2Qc 100) ∧ (0 ≤ Z2Qc 20 ∧ Z2Qc 20 ≤ Z2Qc 100).
Proof.
  apply (group_center_inside_image
           [mkLandmark (Q2Qc (1 # 10)) (Q2Qc (1 # 10)) 0;
            mkLandmark (Q2Qc (3 # 10)) (Q2Qc (3 # 10)) 0]
           [0; 1]%nat 100 100 (mkCoords (Z2Qc 20) (Z2Qc 20))).
  - repeat constructor; by_eval.
  - lia.
  - lia.
  - by_eval.
Defined.

(** ** Division by the image size in [adjust_landmarks] *)

Lemma adjust_one_cases (w h : Z) landmark name coords :
  let applies := ∃ idx, point_indices !! name = Some idx ∧ (idx < length landmark)%nat in
  (adjust_one w h landmark (name, coords) = Raise ZeroDivisionError
   ∧ (w = 0%Z ∨ h = 0%Z) ∧ applies)
  ∨ (∃ landmark', adjust_one w h landmark (name, coords) = Ok landmark'
       ∧ length landmark' = length landmark
       ∧ ¬ ((w = 0%Z ∨ h = 0%Z) ∧ applies)).
Proof.
  intros applies. unfold applies, adjust_one, py_truediv.
  destruct (point_indices !! name) as [idx|].
  - case_bool_decide as Hlt.
    + repeat case_bool_decide; simpl; rewrite ?Z2Qc_eq0 in *.
      * left. split; [reflexivity|]. split; [tauto|]. exists idx. split; [reflexivity | exact Hlt].
      * left. split; [reflexivity|]. split; [tauto|]. exists idx. split; [reflexivity | exact Hlt].
      * left. split; [reflexivity|]. split; [tauto|]. exists idx. split; [reflexivity | exact Hlt].
      * right. eexists. split; [reflexivity|]. split; [apply length_alter | tauto].
    + right. eexists. split; [reflexivity|]. split; [reflexivity|].
      intros (_ & idx' & [= <-] & Hlt'). done.
  - right. eexists. split; [reflexivity|]. split; [reflexivity|].
    intros (_ & idx' & [=] & _).
Qed.

Lemma adjust_items_raises_iff (w h : Z) items landmark :
  adjust_items w h landmark items = Raise ZeroDivisionError
  ↔ (w = 0%Z ∨ h = 0%Z)
    ∧ ∃ name coords idx, (name, coords) ∈ items
        ∧ point_indices !! name = Some idx ∧ (idx < length landmark)%nat.
Proof.
  revert landmark. induction items as [|[name coords] items IH]; intros landmark.
  - simpl. split; [discriminate|].
    intros (_ & n & c & i & Hin & _). apply list.elem_of_nil in Hin. destruct Hin.
  - cbn [adjust_items].
    destruct (adjust_one_cases w h landmark name coords)
      as [(-> & Hzero & idx & Hidx & Hlt)|(landmark' & -> & Hlen & Hnot)]; simpl.
    + split; [|reflexivity]. intros _. split; [exact Hzero|].
      exists name, coords, idx. split; [apply list.elem_of_cons; left; reflexivity|].
      split; assumption.
    + rewrite IH, Hlen. split.
      * intros (Hzero & n & c & i & Hin & Hrest). split; [exact Hzero|].
        exists n, c, i. split; [apply list.elem_of_cons; right; exact Hin | exact Hrest].
      * intros (Hzero & n & c & i & Hin & Hidx & Hlt). split; [exact Hzero|].
        apply list.elem_of_cons in Hin as [[= -> ->]|Hin].
        -- exfalso. apply Hnot. split; [exact Hzero|]. exists i. split; assumption.
        -- exists n, c, i. repeat split; assumption.
Qed.

(** X14: [adjust_landmarks] raises [ZeroDivisionError] exactly when the image
    width or height is 0 and some override is of a group whose
    representative index is within the landmark sequence; it raises nothing
    else. *)
Theorem adjust_landmarks_raises_iff (σ : Store) (landmarks : nat)
    (adjustments : gmap string Coords) (h w : Z) :
  (adjust_landmarks σ landmarks adjustments (h, w) = Raise ZeroDivisionError
   ↔ (w = 0%Z ∨ h = 0%Z)
     ∧ ∃ name coords idx, adjustments !! name = Some coords
         ∧ point_indices !! name = Some idx
         ∧ (idx < length (σ !!! landmarks))%nat)
  ∧ (∀ e, adjust_landmarks σ landmarks adjustments (h, w) = Raise e → e = ZeroDivisionError).
Proof.
  unfold adjust_landmarks, deepcopy. rewrite lookup_total_insert_eq. split.
  - pose proof (adjust_items_raises_iff w h (map_to_list adjustments) (σ !!! landmarks))
      as Hitems.
    assert (Hlist : (∃ name coords idx, (name, coords) ∈ map_to_list adjustments
                       ∧ point_indices !! name = Some idx
                       ∧ (idx < length (σ !!! landmarks))%nat)
                    ↔ ∃ name coords idx, adjustments !! name = Some coords
                        ∧ point_indices !! name = Some idx
                        ∧ (idx < length (σ !!! landmarks))%nat).
    { split; intros (name & coords & idx & Hin & Hrest); exists name, coords, idx;
        (split; [apply elem_of_map_to_list; exact Hin | exact Hrest]). }
    rewrite <- Hlist, <- Hitems.
    destruct (adjust_items w h (σ !!! landmarks) (map_to_list adjustments)) as [l|[]];
      simpl; split; try discriminate; reflexivity.
  - intros []. reflexivity.
Qed.

(** ** Image change *)

(** X15: [detect_image_change] answers [True] exactly when an earlier image
    was seen and its hash differs; it then empties the overrides, the
    history and the redo stack together, and otherwise leaves the session as
    it is.  Seeing the same bytes again right away never clears anything. *)
Theorem detect_image_change_clears_once (md5_hexdigest : string → string)
    (image_bytes : string) (hashes : ImageHashes) (st : SessionState) :
  let first := detect_image_change md5_hexdigest image_bytes hashes st in
  (fst first = true
   ↔ ∃ previous, previous_image_hash hashes = Some previous
       ∧ previous ≠ md5_hexdigest image_bytes)
  ∧ (fst first = true → snd (snd first) = reset_adjustments st)
  ∧ (fst first = false → snd (snd first) = st)
  ∧ detect_image_change md5_hexdigest image_bytes (fst (snd first)) (snd (snd first))
    = (false, snd first).
Proof.
  intros first. unfold first, detect_image_change.
  destruct (previous_image_hash hashes) as [previous|] eqn:Hprev.
  - case_bool_decide as Hchange; simpl.
    + split; [split; [intros _|reflexivity]|].
      * exists previous. split; [reflexivity|]. destruct Hchange as [_ Hne]. congruence.
      * split; [reflexivity|]. split; [discriminate|].
        rewrite bool_decide_eq_false_2; [reflexivity|]. intros [_ Hne]. done.
    + split; [split; [discriminate|]|].
      * intros (p & [= <-] & Hne). exfalso. apply Hchange. split; [discriminate|]. congruence.
      * split; [discriminate|]. split; [reflexivity|].
        rewrite bool_decide_eq_false_2; [reflexivity|]. intros [_ Hne]. done.
  - rewrite bool_decide_eq_false_2 by (intros [Hne _]; done). simpl.
    split; [split; [discriminate | intros (p & [=] & _)]|].
    split; [discriminate|]. split; [reflexivity|].
    rewrite bool_decide_eq_false_2; [reflexivity|]. intros [_ Hne]. done.
Qed.

(** ** Detection *)

(** X16: [detect_face_landmarks] of [app.py] returns landmarks exactly when
    the detector found exactly one face, and an error message exactly when
    it returns no landmarks; the one of [app_final.py] returns the first
    face of any non-empty answer, so the two differ exactly when several
    faces were found. *)
Theorem detect_face_landmarks_single_face {Face : Type} (answer : detector_answer Face) :
  let '(landmarks, error_message) := detect_face_landmarks answer in
  (∀ face, landmarks = Some face ↔ answer = Processed (Some [face]%list))
  ∧ (error_message = None ↔ is_Some landmarks)
  ∧ (error_message = Some MultipleFacesDetected
     ↔ ∃ faces, answer = Processed (Some faces) ∧ (1 < length faces)%nat)
  ∧ (AppFinal.detect_face_landmarks answer = landmarks
     ↔ ¬ ∃ faces, answer = Processed (Some faces) ∧ (1 < length faces)%nat).
Proof.
  destruct answer as [[[|face [|face2 faces]]|]|message]; simpl.
  - split; [intros f; split; discriminate|].
    split; [split; [discriminate | intros [? [=]]]|].
    split; [split; [discriminate | intros (fs & [= <-] & Hlen); simpl in Hlen; lia]|].
    split; [intros _ (fs & [= <-] & Hlen); simpl in Hlen; lia | reflexivity].
  - split; [intros f; split; intros [= ->]; reflexivity|].
    split; [split; [eexists; reflexivity | reflexivity]|].
    split; [split; [discriminate | intros (fs & [= <-] & Hlen); simpl in Hlen; lia]|].
    split; [intros _ (fs & [= <-] & Hlen); simpl in Hlen; lia | reflexivity].
  - split; [intros f; split; discriminate|].
    split; [split; [discriminate | intros [? [=]]]|].
    split; [split; [intros _; eexists; split; [reflexivity | simpl; lia] | reflexivity]|].
    split; [discriminate|]. intros Hnot. exfalso. apply Hnot.
    eexists. split; [reflexivity | simpl; lia].
  - split; [intros f; split; discriminate|].
    split; [split; [discriminate | intros [? [=]]]|].
    split; [split; [discriminate | intros (fs & [=] & _)]|].
    split; [intros _ (fs & [=] & _) | reflexivity].
  - split; [intros f; split; discriminate|].
    split; [split; [discriminate | intros [? [=]]]|].
    split; [split; [discriminate | intros (fs & [=] & _)]|].
    split; [intros _ (fs & [=] & _) | reflexivity].
Qed.

(** ** The front end of [app_final.py] *)

Section AppFinalProofs.
Import AppFinal.

Lemma fmap_contents_fresh (s s' : Session) (refs : list nat) :
  (∀ ref, ref ∈ refs → contents s' ref = contents s ref) →
  contents s' <$> refs = contents s <$> refs.
Proof.
  intros Hsame. induction refs as [|ref refs IH]; [reflexivity|].
  cbn [fmap list_fmap]. rewrite Hsame by (apply list.elem_of_cons; left; reflexivity).
  f_equal. apply IH. intros r Hr. apply Hsame. apply list.elem_of_cons. right. exact Hr.
Qed.

(** [save_to_history], seen through the contents of the session. *)
Lemma save_to_history_views (s : Session) :
  session_inv s →
  let s' := save_to_history s in
  overrides s' = overrides s
  ∧ manual_adjustments s' = manual_adjustments s
  ∧ (fresh (dom (dicts s)) ∉ dom (dicts s))
  ∧ (∀ ref, ref ∈ dom (dicts s) → contents s' ref = contents s ref)
  ∧ contents s' (fresh (dom (dicts s))) = overrides s
  ∧ history s'
    = (if bool_decide (history s = [])
          || bool_decide (list.last (snapshots s) ≠ Some (overrides s))
       then (if bool_decide (20 < length (history s ++ [fresh (dom (dicts s))]))%nat
             then tail (history s ++ [fresh (dom (dicts s))])
             else history s ++ [fresh (dom (dicts s))])
       else history s).
Proof.
  intros (Hman & _). intros s'.
  pose proof (is_fresh (dom (dicts s))) as Hfresh.
  assert (Hsame : ∀ ref, ref ∈ dom (dicts s) → contents s' ref = contents s ref).
  { intros ref Href. unfold s', save_to_history.
    destruct (_ || _); unfold contents; simpl;
      apply lookup_total_insert_ne; intros <-; done. }
  split; [apply Hsame in Hman; unfold overrides, s', save_to_history in *;
          destruct (_ || _); exact Hman|].
  split; [unfold s', save_to_history; destruct (_ || _); reflexivity|].
  split; [exact Hfresh|]. split; [exact Hsame|].
  split; unfold s', save_to_history; destruct (_ || _); unfold contents; simpl;
    first [apply lookup_total_insert_eq | reflexivity].
Qed.

Lemma session_inv_not_aliased_after_push (s : Session) :
  session_inv s →
  history s = [] ∨ list.last (snapshots s) ≠ Some (overrides s) →
  manual_adjustments s ∉ history s.
Proof.
  intros (_ & _ & _ & Halias) [Hempty|Htop] Hin.
  - rewrite Hempty in Hin. apply list.elem_of_nil in Hin. destruct Hin.
  - apply Htop. unfold snapshots. rewrite fmap_last, (Halias Hin). reflexivity.
Qed.

Lemma tail_or_all_props {A} (P : A → Prop) (x : A) (b : bool) (l : list A) :
  Forall P l → NoDup l → x ∉ l →
  Forall P (if b then tail l else l) ∧ NoDup (if b then tail l else l)
  ∧ x ∉ (if b then tail l else l).
Proof.
  intros Hall Hnd Hx. destruct b; [|repeat split; assumption].
  destruct l as [|y l]; [repeat split; assumption|]. simpl.
  apply list.Forall_cons in Hall as [_ Hall]. apply list.NoDup_cons in Hnd as [_ Hnd].
  repeat split; [assumption..|].
  intros Hin. apply Hx. apply list.elem_of_cons. right. exact Hin.
Qed.

Lemma session_inv_save (s : Session) : session_inv s → session_inv (save_to_history s).
Proof.
  intros Hinv. pose proof Hinv as (Hman & Hhist & Hnd & Halias).
  pose proof (is_fresh (dom (dicts s))) as Hfresh.
  set (copy := fresh (dom (dicts s))) in *.
  assert (Hnotin : copy ∉ history s).
  { intros Hin. rewrite list.Forall_forall in Hhist. apply Hfresh, Hhist, Hin. }
  assert (Hdom : ∀ ref, ref ∈ dom (dicts s) →
                   ref ∈ dom (<[copy := overrides s]> (dicts s))).
  { intros ref Href. rewrite dom_insert. apply elem_of_union. right. exact Href. }
  unfold save_to_history. fold copy.
  set (push := _ || _). destruct push eqn:Hpush; unfold session_inv; simpl.
  - assert (Hfree : manual_adjustments s ∉ history s).
    { apply session_inv_not_aliased_after_push; [exact Hinv|].
      unfold push in Hpush.
      apply orb_true_iff in Hpush as [Hp|Hp]; apply bool_decide_eq_true_1 in Hp; tauto. }
    assert (Hall : Forall (λ ref, ref ∈ dom (<[copy := overrides s]> (dicts s)))
                          (history s ++ [copy])).
    { apply list.Forall_app. split.
      - eapply list.Forall_impl; [exact Hhist | exact Hdom].
      - constructor; [|constructor]. rewrite dom_insert. apply elem_of_union. left.
        apply elem_of_singleton. reflexivity. }
    assert (Hnd' : NoDup (history s ++ [copy])).
    { apply list.NoDup_app. split; [exact Hnd|]. split; [|apply NoDup_singleton].
      intros ref Hin Hin'. apply list_elem_of_singleton in Hin'. subst ref. done. }
    assert (Hfree' : manual_adjustments s ∉ history s ++ [copy]).
    { intros Hin. apply list.elem_of_app in Hin as [Hin|Hin]; [done|].
      apply list_elem_of_singleton in Hin. rewrite Hin in Hman. done. }
    destruct (tail_or_all_props _ _ (bool_decide (20 < length (history s ++ [copy]))%nat)
                _ Hall Hnd' Hfree') as (H1 & H2 & H3).
    split; [apply Hdom, Hman|]. split; [exact H1|]. split; [exact H2|].
    intros Hin. done.
  - split; [apply Hdom, Hman|]. split; [|split; assumption].
    eapply list.Forall_impl; [exact Hhist | exact Hdom].
Qed.

Lemma session_inv_set (name : string) (coords : Coords) (s : Session) :
  session_inv s → session_inv (set_override name coords s).
Proof.
  intros (Hman & Hhist & Hnd & Halias). unfold session_inv, set_override. simpl.
  assert (Hdom : ∀ ref, ref ∈ dom (dicts s) →
                   ref ∈ dom (<[manual_adjustments s := <[name := coords]> (overrides s)]>
                                (dicts s))).
  { intros ref Href. rewrite dom_insert. apply elem_of_union. right. exact Href. }
  split; [apply Hdom, Hman|]. split; [|split; assumption].
  eapply list.Forall_impl; [exact Hhist | exact Hdom].
Qed.

Lemma session_inv_undo (s : Session) : session_inv s → session_inv (undo_button s).
Proof.
  intros (Hman & Hhist & Hnd & Halias). unfold undo_button.
  destruct (history s) as [|ref0 refs] eqn:Hh; [rewrite <- Hh in *; repeat split; assumption|].
  rewrite <- Hh in *.
  assert (Hsub : ∀ ref, ref ∈ removelast (history s) → ref ∈ history s).
  { intros ref Hin. rewrite removelast_firstn_len in Hin.
    apply list.elem_of_take in Hin as (i & Hi & _). eapply list_elem_of_lookup_2, Hi. }
  assert (Hall : Forall (λ ref, ref ∈ dom (dicts s)) (removelast (history s))).
  { apply list.Forall_forall. intros ref Hin. rewrite list.Forall_forall in Hhist.
    apply Hhist, Hsub, Hin. }
  assert (Hnd' : NoDup (removelast (history s))).
  { rewrite removelast_firstn_len. eapply sublist_NoDup; [exact Hnd | apply sublist_take]. }
  destruct (list.last (removelast (history s))) as [top|] eqn:Htop;
    unfold session_inv; simpl.
  - split; [|split; [exact Hall|split; [exact Hnd'|intros _; exact Htop]]].
    rewrite list.Forall_forall in Hall. apply Hall, list.last_Some_elem_of, Htop.
  - pose proof (is_fresh (dom (dicts s))) as Hfresh.
    split; [rewrite dom_insert; apply elem_of_union; left; apply elem_of_singleton;
            reflexivity|].
    split; [|split; [exact Hnd'|]].
    + eapply list.Forall_impl; [exact Hall|]. intros ref Href. simpl.
      rewrite dom_insert. apply elem_of_union. right. exact Href.
    + intros Hin. apply last_None in Htop. rewrite Htop in Hin.
      apply list.elem_of_nil in Hin. destruct Hin.
Qed.



(** X18: the group center of [app_final.py] is the group center of [app.py]
    rounded to two decimals: both resolve for the same landmarks and
    indices, and they differ by at most 0.005 along each axis. *)
Theorem final_center_is_rounded_center (landmark : list NormalizedLandmark)
    (indices : list nat) (image_shape : Z * Z) :
  calculate_landmark_center landmark indices image_shape
  = (λ c, {| cx := py_round (cx c) 2; cy := py_round (cy c) 2 |})
      <$> calculate_group_center (Some landmark) indices image_shape
  ∧ (∀ c c',
       calculate_group_center (Some landmark) indices image_shape = Some c →
       calculate_landmark_center landmark indices image_shape = Some c' →
       Qcabs (cx c' - cx c) ≤ half / ten ^ 2 ∧ Qcabs (cy c' - cy c) ≤ half / ten ^ 2).
Proof.
  assert (Heq : calculate_landmark_center landmark indices image_shape
                = (λ c, {| cx := py_round (cx c) 2; cy := py_round (cy c) 2 |})
                    <$> calculate_group_center (Some landmark) indices image_shape).
  { unfold calculate_landmark_center, calculate_group_center.
    destruct image_shape as [h w].
    destruct indices as [|idx0 rest]; [reflexivity|].
    destruct (flat_map _ (idx0 :: rest)); reflexivity. }
  split; [exact Heq|].
  intros c c' Hc Hc'. rewrite Heq, Hc in Hc'. injection Hc' as <-. simpl.
  split; apply py_round_err.
Qed.

Lemma session_inv_initial : session_inv initialize_session_state.
Proof.
  split; [|split; [|split]].
  - unfold initialize_session_state. simpl. rewrite dom_singleton_L. set_solver.
  - constructor.
  - constructor.
  - intros Hin. apply list.elem_of_nil in Hin. destruct Hin.
Qed.

Lemma session_inv_sample_drag : session_inv sample_drag.
Proof. apply session_inv_set, session_inv_save, session_inv_initial. Qed.

Lemma session_inv_sample_two_drags : session_inv sample_two_drags.
Proof. apply session_inv_set, session_inv_save, session_inv_sample_drag. Qed.

(** What one accepted drag does to a session whose history gets a new
    entry. *)
Lemma drag_pushing_views (name : string) (coords : Coords) (s : Session) :
  session_inv s →
  history s = [] ∨ list.last (snapshots s) ≠ Some (overrides s) →
  (length (history s) < 20)%nat →
  let dragged := set_override name coords (save_to_history s) in
  history dragged = history s ++ [fresh (dom (dicts s))]
  ∧ overrides dragged = <[name := coords]> (overrides s)
  ∧ (∀ ref, ref ∈ history s → contents dragged ref = contents s ref)
  ∧ contents dragged (fresh (dom (dicts s))) = overrides s.
Proof.
  intros Hinv Hpush Hlen dragged.
  pose proof (session_inv_not_aliased_after_push s Hinv Hpush) as Hnot.
  destruct (save_to_history_views s Hinv) as (Hov & Hman & Hfresh & Hsame & Hnew & Hhist).
  destruct Hinv as (Hdom & Hrefs & _ & _).
  assert (Hh : history (save_to_history s) = history s ++ [fresh (dom (dicts s))]).
  { rewrite Hhist.
    assert (Hb : bool_decide (history s = [])
                 || bool_decide (list.last (snapshots s) ≠ Some (overrides s)) = true).
    { destruct Hpush as [H|H].
      - rewrite (bool_decide_eq_true_2 _ H). reflexivity.
      - rewrite (bool_decide_eq_true_2 _ H). apply orb_true_r. }
    rewrite Hb. clear Hb Hhist. case_bool_decide as Hfull; [|reflexivity].
    rewrite length_app in Hfull. simpl in Hfull. lia. }
  split; [exact Hh|].
  split.
  { unfold dragged, overrides at 1, contents, set_override. simpl.
    rewrite lookup_total_insert_eq. rewrite Hov. reflexivity. }
  split.
  - intros ref Href. unfold dragged, contents at 1, set_override. simpl.
    rewrite lookup_total_insert_ne.
    + apply Hsame. exact (proj1 (list.Forall_forall _ _) Hrefs ref Href).
    + rewrite Hman. intros <-. exact (Hnot Href).
  - unfold dragged, contents at 1, set_override. simpl.
    rewrite lookup_total_insert_ne.
    + exact Hnew.
    + rewrite Hman. intros E. rewrite E in Hdom. exact (Hfresh Hdom).
Qed.

(** X19: in [app_final.py] an accepted drag pushes a copy of the overrides as
    they were before the drag, and the undo button pops that copy and takes
    the entry below it.  So, from a session whose history gets the new entry
    and is not full, drag then undo leaves the history as it was and makes
    the overrides the last snapshot of before (the empty dict if there was
    none), which is not the overrides of before the drag when the history
    was not empty. *)
Theorem final_undo_skips_the_state_before_the_drag
    (name : string) (coords : Coords) (s : Session) :
  session_inv s →
  history s = [] ∨ list.last (snapshots s) ≠ Some (overrides s) →
  (length (history s) < 20)%nat →
  let dragged := set_override name coords (save_to_history s) in
  overrides dragged = <[name := coords]> (overrides s)
  ∧ snapshots dragged = snapshots s ++ [overrides s]
  ∧ snapshots (undo_button dragged) = snapshots s
  ∧ overrides (undo_button dragged) = default ∅ (list.last (snapshots s))
  ∧ (history s ≠ [] → overrides (undo_button dragged) ≠ overrides s).
Proof.
  intros Hinv Hpush Hlen dragged.
  destruct (drag_pushing_views name coords s Hinv Hpush Hlen)
    as (Hh & Hov & Hold & Hnew).
  fold dragged in Hh, Hov, Hold, Hnew.
  assert (Hsnap : contents dragged <$> history s = snapshots s)
    by (apply fmap_contents_fresh; exact Hold).
  assert (Hundo : snapshots (undo_button dragged) = snapshots s
                  ∧ overrides (undo_button dragged) = default ∅ (list.last (snapshots s))).
  { unfold undo_button. rewrite Hh.
    destruct (history s ++ [fresh (dom (dicts s))]) eqn:Happ;
      [destruct (history s); discriminate|].
    rewrite <- Happ, removelast_last.
    destruct (list.last (history s)) as [top|] eqn:Hlast.
    - unfold snapshots at 1, overrides at 1, contents at 1 2. simpl.
      split; [exact Hsnap|].
      transitivity (contents dragged top); [reflexivity|].
      rewrite (Hold top (list.last_Some_elem_of _ _ Hlast)).
      unfold snapshots. rewrite fmap_last, Hlast. reflexivity.
    - apply list.last_None in Hlast.
      unfold snapshots at 1, overrides at 1, contents at 1 2. simpl.
      rewrite lookup_total_insert_eq. unfold snapshots. rewrite Hlast.
      split; reflexivity. }
  destruct Hundo as (Hus & Huo).
  split; [exact Hov|].
  split.
  { unfold snapshots at 1. rewrite Hh, fmap_app, Hsnap. simpl.
    fold (contents dragged (fresh (dom (dicts s)))). rewrite Hnew. reflexivity. }
  split; [exact Hus|]. split; [exact Huo|].
  intros Hne. rewrite Huo.
  destruct Hpush as [Hempty|Htop]; [contradiction|].
  destruct (list.last (snapshots s)) as [x|] eqn:Hlast.
  - simpl. intros ->. apply Htop. reflexivity.
  - apply list.last_None in Hlast. unfold snapshots in Hlast.
    apply fmap_nil_inv in Hlast. contradiction.
Qed.

Lemma final_undo_skips_the_state_before_the_drag_witness :
  let coords := {| cx := Z2Qc 20; cy := Z2Qc 20 |} in
  let dragged := set_override "nose_tip" coords (save_to_history sample_drag) in
  overrides dragged = <[ "nose_tip" := coords ]> (overrides sample_drag)
  ∧ snapshots dragged = snapshots sample_drag ++ [overrides sample_drag]
  ∧ snapshots (undo_button dragged) = snapshots sample_drag
  ∧ overrides (undo_button dragged) = default ∅ (list.last (snapshots sample_drag))
  ∧ (history sample_drag ≠ [] → overrides (undo_button dragged) ≠ overrides sample_drag).
Proof.
  apply (final_undo_skips_the_state_before_the_drag "nose_tip"
           {| cx := Z2Qc 20; cy := Z2Qc 20 |} sample_drag).
  - exact session_inv_sample_drag.
  - right. by_eval.
  - by_eval.
Defined.

(** X20: in [app_final.py], after the undo button has left [manual_adjustments]
    the same object as the last entry of the history, the next accepted drag
    pushes nothing (the copy equals that entry) and writes the dragged point
    into that entry: the history keeps its length and its last snapshot is
    overwritten with the new overrides. *)
Theorem final_drag_after_undo_overwrites_the_snapshot
    (name : string) (coords : Coords) (s : Session) :
  session_inv s →
  (2 ≤ length (history s))%nat →
  let undone := undo_button s in
  let dragged := set_override name coords (save_to_history undone) in
  list.last (history undone) = Some (manual_adjustments undone)
  ∧ history dragged = history undone
  ∧ overrides dragged = <[name := coords]> (overrides undone)
  ∧ snapshots dragged
    = removelast (snapshots undone) ++ [<[name := coords]> (overrides undone)].
Proof.
  intros Hinv Hlen undone dragged.
  pose proof (session_inv_undo s Hinv) as Hinvu. fold undone in Hinvu.
  assert (Halias : list.last (history undone) = Some (manual_adjustments undone)).
  { unfold undone, undo_button.
    destruct (history s) as [|a [|b l]] eqn:Hh; [simpl in Hlen; lia..|].
    destruct (list.last (removelast (a :: b :: l))) as [top|] eqn:Hlast.
    - simpl. exact Hlast.
    - apply list.last_None in Hlast. simpl in Hlast. destruct l; discriminate. }
  split; [exact Halias|].
  destruct (save_to_history_views undone Hinvu)
    as (Hov & Hman & Hfresh & Hsame & Hnew & Hhist).
  destruct Hinvu as (Hdom & Hrefs & Hnd & _).
  assert (Hh : history (save_to_history undone) = history undone).
  { rewrite Hhist.
    assert (Hb : bool_decide (history undone = [])
                 || bool_decide (list.last (snapshots undone) ≠ Some (overrides undone))
                 = false).
    { apply orb_false_intro.
      - apply bool_decide_eq_false_2. intros E. rewrite E in Halias. discriminate.
      - apply bool_decide_eq_false_2. intros E. apply E.
        unfold snapshots. rewrite fmap_last, Halias. reflexivity. }
    rewrite Hb. reflexivity. }
  assert (Hd : overrides dragged = <[name := coords]> (overrides undone)).
  { unfold dragged, overrides at 1, contents, set_override. simpl.
    rewrite lookup_total_insert_eq, Hov. reflexivity. }
  split; [exact Hh|]. split; [exact Hd|].
  destruct (history undone) as [|a l] eqn:Hu using rev_ind; [discriminate|].
  clear IHl. rewrite list.last_snoc in Halias. injection Halias as ->.
  assert (Hhd : history dragged = l ++ [manual_adjustments undone]) by exact Hh.
  unfold snapshots. rewrite Hhd, Hu, !fmap_app. simpl.
  rewrite removelast_last.
  f_equal.
  - apply fmap_contents_fresh. intros ref Href.
    unfold dragged, contents at 1, set_override. simpl.
    rewrite lookup_total_insert_ne.
    + apply Hsame. apply (proj1 (list.Forall_forall _ _) Hrefs).
      apply list.elem_of_app. left. exact Href.
    + rewrite Hman. intros <-.
      apply list.NoDup_app in Hnd. destruct Hnd as (_ & Hdisj & _).
      apply (Hdisj _ Href). apply list.elem_of_cons. left. reflexivity.
  - f_equal. rewrite <- Hd. unfold overrides. f_equal.
    unfold dragged, set_override. simpl. symmetry. exact Hman.
Qed.

Lemma final_drag_after_undo_overwrites_the_snapshot_witness :
  let coords := {| cx := Z2Qc 30; cy := Z2Qc 30 |} in
  let undone := undo_button sample_two_drags in
  let dragged := set_override "nose_tip" coords (save_to_history undone) in
  list.last (history undone) = Some (manual_adjustments undone)
  ∧ history dragged = history undone
  ∧ overrides dragged = <[ "nose_tip" := coords ]> (overrides undone)
  ∧ snapshots dragged
    = removelast (snapshots undone) ++ [<[ "nose_tip" := coords ]> (overrides undone)].
Proof.
  apply (final_drag_after_undo_overwrites_the_snapshot "nose_tip"
           {| cx := Z2Qc 30; cy := Z2Qc 30 |} sample_two_drags).
  - exact session_inv_sample_two_drags.
  - by_eval.
Defined.

End AppFinalProofs.

Section AppFinalCanvasProofs.
Import AppFinal.
Variable sqrt : Qc → Qc.

Lemma save_to_history_threshold (s : Session) :
  movement_threshold (save_to_history s) = movement_threshold s.
Proof. unfold save_to_history. destruct (_ || _); reflexivity. Qed.

(** One turn of the loop either leaves the accumulator as it is or sets
    [updated]. *)
Lemma update_from_object_flag (image_shape canvas_size : Z * Z)
    (acc acc' : Session * bool) (obj : CanvasObject) :
  update_from_object sqrt image_shape canvas_size acc obj = Ok acc' →
  movement_threshold acc'.1 = movement_threshold acc.1
  ∧ (acc'.2 = false → acc' = acc).
Proof.
  unfold update_from_object.
  destruct acc as [s updated], image_shape as [h w], canvas_size as [cw ch].
  destruct (obj_name obj) as [name|]; [|intros [= <-]; done].
  destruct (_ && _); [|intros [= <-]; done].
  case_bool_decide; [|intros [= <-]; done].
  destruct (scale_coordinates _ _ _) as [real|e]; [|discriminate]. simpl.
  case_bool_decide; intros [= <-]; [|done].
  simpl. split; [apply save_to_history_threshold | discriminate].
Qed.

Lemma scale_coordinates_raises_iff (coords : Coords) (from_size to_size : Z * Z) :
  scale_coordinates coords from_size to_size = Raise ZeroDivisionError
  ↔ from_size.1 = 0%Z ∨ from_size.2 = 0%Z.
Proof.
  unfold scale_coordinates, py_truediv.
  destruct from_size as [fw fh]. simpl.
  rewrite (bool_decide_ext (Z2Qc fw = 0) (fw = 0%Z)) by apply Z2Qc_eq0.
  rewrite (bool_decide_ext (Z2Qc fh = 0) (fh = 0%Z)) by apply Z2Qc_eq0.
  destruct (decide (fw = 0%Z)) as [Hw|Hw], (decide (fh = 0%Z)) as [Hh|Hh];
    rewrite ?(bool_decide_eq_true_2 _ Hw), ?(bool_decide_eq_false_2 _ Hw),
            ?(bool_decide_eq_true_2 _ Hh), ?(bool_decide_eq_false_2 _ Hh); simpl;
    (split; [first [discriminate | intros _; tauto] | first [reflexivity | tauto]]).
Qed.

(** One turn on a canvas that may have a side of length 0. *)
Lemma update_from_object_raises_iff (image_shape canvas_size : Z * Z)
    (acc : Session * bool) (obj : CanvasObject) :
  update_from_object sqrt image_shape canvas_size acc obj = Raise ZeroDivisionError
  ↔ (canvas_size.1 = 0%Z ∨ canvas_size.2 = 0%Z)
    ∧ obj_type obj = Some "circle"
    ∧ (∃ name, obj_name obj = Some name ∧ name ≠ "")
    ∧ movement_threshold acc.1 ≤ move_distance sqrt obj.
Proof.
  unfold update_from_object.
  destruct acc as [s updated], image_shape as [h w], canvas_size as [cw ch].
  pose proof (scale_coordinates_raises_iff (current_center obj) (cw, ch) (w, h)) as Hscale.
  simpl in Hscale |- *.
  destruct (obj_name obj) as [name|];
    [|split; [discriminate | intros (_ & _ & (name & [=] & _) & _)]].
  case_bool_decide as Htype; simpl;
    [|split; [discriminate | intros (_ & Ht & _); contradiction]].
  case_bool_decide as Hname; simpl;
    [|split; [discriminate | intros (_ & _ & (name' & [= <-] & Hn) & _); contradiction]].
  case_bool_decide as Hmove;
    [|split; [discriminate | intros (_ & _ & _ & Hm); contradiction]].
  destruct (scale_coordinates _ _ _) as [real|[]]; simpl.
  - split.
    + case_bool_decide; discriminate.
    + intros (Hzero & _). apply Hscale in Hzero. discriminate.
  - split; [|reflexivity]. intros _.
    split; [apply Hscale; reflexivity|].
    split; [exact Htype|]. split; [exists name; done | exact Hmove].
Qed.

Lemma update_from_objects_raises_iff (image_shape canvas_size : Z * Z)
    (objects : list CanvasObject) (acc : Session * bool) :
  (update_from_objects sqrt image_shape canvas_size acc objects).2 = Raise ZeroDivisionError
  ↔ (canvas_size.1 = 0%Z ∨ canvas_size.2 = 0%Z)
    ∧ Exists (λ obj, obj_type obj = Some "circle"
                     ∧ (∃ name, obj_name obj = Some name ∧ name ≠ "")
                     ∧ movement_threshold acc.1 ≤ move_distance sqrt obj) objects.
Proof.
  revert acc. induction objects as [|obj objects IH]; intros acc.
  - simpl. split; [discriminate|]. intros (_ & Hex). inversion Hex.
  - cbn [update_from_objects].
    pose proof (update_from_object_raises_iff image_shape canvas_size acc obj) as Hone.
    destruct (update_from_object sqrt image_shape canvas_size acc obj) as [acc'|[]] eqn:Hstep.
    + destruct (update_from_object_flag _ _ _ _ _ Hstep) as (Hthr & _).
      rewrite IH, Hthr. split.
      * intros (Hzero & Hex). split; [exact Hzero|]. right. exact Hex.
      * intros (Hzero & Hex). split; [exact Hzero|].
        apply Exists_cons in Hex as [Hobj|Hex]; [|exact Hex].
        assert (Hraise : Ok acc' = Raise ZeroDivisionError)
          by (apply Hone; split; [exact Hzero | exact Hobj]).
        discriminate.
    + simpl. split; [|reflexivity]. intros _.
      destruct (proj1 Hone eq_refl) as (Hzero & Hobj).
      split; [exact Hzero|]. left. exact Hobj.
Qed.

Lemma update_from_objects_unchanged (image_shape canvas_size : Z * Z)
    (objects : list CanvasObject) (acc : Session * bool) (s' : Session) (r : result bool) :
  update_from_objects sqrt image_shape canvas_size acc objects = (s', r) →
  (canvas_size.1 = 0%Z ∨ canvas_size.2 = 0%Z) ∨ r = Ok false →
  s' = acc.1 ∧ (r = Ok false → acc.2 = false).
Proof.
  revert acc. induction objects as [|obj objects IH]; intros acc.
  - simpl. intros [= <- <-] _. split; [reflexivity | intros [= ->]; reflexivity].
  - cbn [update_from_objects].
    pose proof (update_from_object_raises_iff image_shape canvas_size acc obj) as Hone.
    destruct (update_from_object sqrt image_shape canvas_size acc obj) as [acc'|[]] eqn:Hstep.
    + intros Hrun Hcase. destruct (IH acc' Hrun Hcase) as (Hs & Hflag).
      destruct (update_from_object_flag _ _ _ _ _ Hstep) as (_ & Hsame).
      destruct Hcase as [Hzero|Hr].
      * assert (Hacc : acc' = acc).
        { revert Hstep. clear -Hzero.
          unfold update_from_object.
          destruct acc as [s updated], image_shape as [h w], canvas_size as [cw ch].
          pose proof (proj2 (scale_coordinates_raises_iff (current_center obj) (cw, ch) (w, h))
                        Hzero) as Hscale.
          destruct (obj_name obj) as [name|]; [|intros [= <-]; done].
          destruct (_ && _); [|intros [= <-]; done].
          case_bool_decide; [|intros [= <-]; done].
          rewrite Hscale. discriminate. }
        rewrite Hs, Hacc. split; [reflexivity|]. rewrite <- Hacc. exact Hflag.
      * rewrite Hs, <- (Hsame (Hflag Hr)).
        split; [reflexivity | intros _; exact (Hflag Hr)].
    + intros [= <- <-] _. split; [reflexivity | discriminate].
Qed.

(** X21: [update_adjustments_from_canvas] of [app_final.py] catches nothing:
    it raises [ZeroDivisionError] exactly when the canvas has a side of
    length 0 and one of the objects is a named circle moved by the threshold
    or more, and then nothing was stored before the exception. *)
Theorem final_update_raises_iff (objects : list CanvasObject)
    (image_shape canvas_size : Z * Z) (s : Session) :
  let run := update_adjustments_from_canvas sqrt (Some objects) image_shape canvas_size s in
  (run.2 = Raise ZeroDivisionError
   ↔ (canvas_size.1 = 0%Z ∨ canvas_size.2 = 0%Z)
     ∧ Exists (λ obj, obj_type obj = Some "circle"
                      ∧ (∃ name, obj_name obj = Some name ∧ name ≠ "")
                      ∧ movement_threshold s ≤ move_distance sqrt obj) objects)
  ∧ (run.2 = Raise ZeroDivisionError → run.1 = s).
Proof.
  intros run. unfold run, update_adjustments_from_canvas.
  split; [apply (update_from_objects_raises_iff image_shape canvas_size objects (s, false))|].
  intros Hraise.
  apply update_from_objects_raises_iff in Hraise as (Hzero & _).
  destruct (update_from_objects sqrt image_shape canvas_size (s, false) objects)
    as [s' r] eqn:Hrun.
  destruct (update_from_objects_unchanged _ _ _ _ _ _ Hrun (or_introl Hzero)) as (Hs & _).
  exact Hs.
Qed.

(** X22: [update_adjustments_from_canvas] of [app_final.py] returns [False]
    only when it has left the session as it was: overrides, history and
    threshold. *)
Theorem final_update_false_leaves_session (json_data : option (list CanvasObject))
    (image_shape canvas_size : Z * Z) (s : Session) :
  let run := update_adjustments_from_canvas sqrt json_data image_shape canvas_size s in
  run.2 = Ok false → run.1 = s.
Proof.
  intros run. unfold run, update_adjustments_from_canvas.
  destruct json_data as [objects|]; [|reflexivity].
  destruct (update_from_objects sqrt image_shape canvas_size (s, false) objects)
    as [s' r] eqn:Hrun.
  simpl. intros ->.
  destruct (update_from_objects_unchanged _ _ _ _ _ _ Hrun (or_intror eq_refl)) as (Hs & _).
  exact Hs.
Qed.

End AppFinalCanvasProofs.

Lemma final_update_false_leaves_session_witness :
  let run := AppFinal.update_adjustments_from_canvas sqrt_6dp
               (Some [resting_circle; sample_circle]%list)
               (1600, 1200)%Z (600, 800)%Z
               (AppFinal.set_override "nose_tip" {| cx := Z2Qc 224; cy := Z2Qc 224 |}
                  AppFinal.initialize_session_state) in
  run.2 = Ok false
  ∧ run.1 = AppFinal.set_override "nose_tip" {| cx := Z2Qc 224; cy := Z2Qc 224 |}
              AppFinal.initialize_session_state.
Proof.
  intros run.
  assert (Hflag : run.2 = Ok false) by (vm_compute; reflexivity).
  split; [exact Hflag|].
  exact (final_update_false_leaves_session sqrt_6dp _ _ _ _ Hflag).
Defined.

(** ** A canvas that nobody touched *)

Section UntouchedCanvas.
Variable sqrt : Qc → Qc.
Hypothesis sqrt_0 : sqrt 0 = 0.

(** A circle drawn around a point has not moved. *)
Lemma move_distance_drawn (name : string) (x y radius : Qc) :
  move_distance sqrt
    {| obj_type := Some "circle"; obj_name := Some name;
       obj_left := Some (x - radius); obj_top := Some (y - radius);
       obj_radius := Some radius;
       obj_originalX := Some x; obj_originalY := Some y |} = 0.
Proof.
  unfold move_distance. transitivity (sqrt 0); [f_equal | exact sqrt_0].
  unfold current_center, original_center. simpl. ring.
Qed.

Lemma initial_objects_not_moved (st : SessionState) (real_size canvas_size : Z * Z)
    (key_points : list (string * KeyPoint)) (objects : list CanvasObject) :
  initial_objects st real_size canvas_size key_points = Ok objects →
  Forall (λ obj, move_distance sqrt obj = 0) objects.
Proof.
  revert objects. induction key_points as [|[point_name point_info] key_points IH];
    intros objects.
  - intros [= <-]. constructor.
  - cbn [initial_objects]. unfold initial_object.
    destruct (CoordinateConverter.scale_to_canvas _ _ _) as [canvas_coords|e];
      [|discriminate]. simpl.
    destruct (initial_objects st real_size canvas_size key_points) as [rest|e];
      [|discriminate]. simpl.
    intros [= <-]. constructor; [apply move_distance_drawn | apply IH; reflexivity].
Qed.

(** X23: in [app.py] the circles that the canvas page draws have not moved,
    so, with a positive threshold, the drag handler run on them as they were
    drawn stores nothing: it answers [False] and leaves the session as it
    is. *)
Theorem untouched_canvas_commits_nothing (st : SessionState)
    (real_size canvas_size : Z * Z) (key_points : list (string * KeyPoint))
    (objects : list CanvasObject) :
  0 < movement_threshold st →
  initial_objects st real_size canvas_size key_points = Ok objects →
  length objects = length key_points
  ∧ Forall (λ obj, move_distance sqrt obj = 0) objects
  ∧ update_enhanced_landmark_positions sqrt (Some objects)
      (list_to_set key_points.*1) real_size canvas_size st = (false, st).
Proof.
  intros Hthr Hdraw.
  pose proof (initial_objects_not_moved _ _ _ _ _ Hdraw) as Hrest.
  split; [|split; [exact Hrest|]].
  - revert objects Hdraw Hrest. induction key_points as [|item key_points IH];
      intros objects.
    + intros [= <-] _. reflexivity.
    + cbn [initial_objects].
      destruct (initial_object st real_size canvas_size item) as [obj|e]; [|discriminate].
      simpl.
      destruct (initial_objects st real_size canvas_size key_points) as [rest|e] eqn:Hrest;
        [|discriminate]. simpl.
      intros [= <-] Hall. simpl. f_equal. apply (IH rest eq_refl).
      inversion Hall; assumption.
  - unfold update_enhanced_landmark_positions.
    rewrite process_objects_at_rest; [reflexivity|].
    eapply list.Forall_impl; [exact Hrest|].
    intros obj Hobj. right. rewrite Hobj. exact Hthr.
Qed.

Import AppFinal AppFinalCanvas.

Lemma canvas_objects_not_moved (groups : list (string * (list nat * Z)))
    (landmark : list NormalizedLandmark) (image_shape canvas_size : Z * Z)
    (adjustments : option (gmap string Coords)) (objects : list CanvasObject) :
  canvas_objects_of groups landmark image_shape canvas_size adjustments = Ok objects →
  Forall (λ obj, move_distance sqrt obj = 0) objects.
Proof.
  revert objects. induction groups as [|[name [indices size]] groups IH]; intros objects.
  - intros [= <-]. constructor.
  - cbn [canvas_objects_of].
    destruct (calculate_landmark_center landmark indices image_shape) as [center|];
      [|apply IH].
    cbv zeta.
    destruct (scale_coordinates _ _ _) as [canvas_coords|e]; [|discriminate]. simpl.
    destruct (canvas_objects_of groups landmark image_shape canvas_size adjustments)
      as [rest|e]; [|discriminate]. simpl.
    intros [= <-]. constructor; [apply move_distance_drawn | apply IH; reflexivity].
Qed.

Lemma update_from_objects_at_rest (image_shape canvas_size : Z * Z) (s : Session)
    (updated : bool) (objects : list CanvasObject) :
  Forall (λ obj, move_distance sqrt obj < movement_threshold s) objects →
  update_from_objects sqrt image_shape canvas_size (s, updated) objects = (s, Ok updated).
Proof.
  induction 1 as [|obj objects Hobj _ IH]; [reflexivity|].
  cbn [update_from_objects].
  replace (update_from_object sqrt image_shape canvas_size (s, updated) obj)
    with (Ok (s, updated)); [exact IH|].
  unfold update_from_object. destruct image_shape as [h w], canvas_size as [cw ch].
  destruct (obj_name obj) as [name|]; [|reflexivity].
  destruct (_ && _); [|reflexivity].
  rewrite bool_decide_eq_false_2 by (apply Qclt_not_le, Hobj). reflexivity.
Qed.

(** X24: in [app_final.py] the circles of [create_canvas_objects] have not
    moved, so, with a positive threshold, [update_adjustments_from_canvas]
    run on them as they were created returns [False] and leaves the session
    as it is, whatever the overrides they were drawn from. *)
Theorem final_untouched_canvas_commits_nothing (landmark : list NormalizedLandmark)
    (image_shape canvas_size : Z * Z) (adjustments : option (gmap string Coords))
    (s : Session) (objects : list CanvasObject) :
  0 < AppFinal.movement_threshold s →
  create_canvas_objects landmark image_shape canvas_size adjustments = Ok objects →
  Forall (λ obj, move_distance sqrt obj = 0) objects
  ∧ update_adjustments_from_canvas sqrt (Some objects) image_shape canvas_size s
    = (s, Ok false).
Proof.
  intros Hthr Hdraw.
  pose proof (canvas_objects_not_moved _ _ _ _ _ _ Hdraw) as Hrest.
  split; [exact Hrest|].
  unfold update_adjustments_from_canvas.
  apply update_from_objects_at_rest.
  eapply list.Forall_impl; [exact Hrest|].
  intros obj Hobj. simpl in Hobj |- *. rewrite Hobj. exact Hthr.
Qed.

End UntouchedCanvas.

Lemma sqrt_6dp_0 : sqrt_6dp 0 = 0.
Proof. by_eval. Qed.

Lemma untouched_canvas_commits_nothing_witness :
  ∃ objects,
    initial_objects sample_session (1200, 1600)%Z (600, 800)%Z
      [("nose_tip", mkKeyPoint (mkCoords (Z2Qc 400) (Z2Qc 500)) 12);
       ("nose_bridge", mkKeyPoint (mkCoords (Z2Qc 400) (Z2Qc 300)) 8)]%list = Ok objects
    ∧ length objects = 2%nat
    ∧ Forall (λ obj, move_distance sqrt_6dp obj = 0) objects
    ∧ update_enhanced_landmark_positions sqrt_6dp (Some objects)
        {[ "nose_tip"; "nose_bridge" ]} (1200, 1600)%Z (600, 800)%Z sample_session
      = (false, sample_session).
Proof.
  eexists. split; [vm_compute; reflexivity|].
  pose proof (untouched_canvas_commits_nothing sqrt_6dp sqrt_6dp_0 sample_session
                (1200, 1600)%Z (600, 800)%Z
                [("nose_tip", mkKeyPoint (mkCoords (Z2Qc 400) (Z2Qc 500)) 12);
                 ("nose_bridge", mkKeyPoint (mkCoords (Z2Qc 400) (Z2Qc 300)) 8)]%list)
    as Hthm.
  destruct (Hthm _ ltac:(by_eval) ltac:(vm_compute; reflexivity)) as (Hlen & Hrest & Hrun).
  split; [exact Hlen|]. split; [exact Hrest|].
  exact Hrun.
Defined.

Lemma final_untouched_canvas_commits_nothing_witness :
  ∃ objects,
    AppFinalCanvas.create_canvas_objects sample_face (1600, 1200)%Z (600, 800)%Z
      (Some (AppFinal.overrides AppFinal.sample_drag)) = Ok objects
    ∧ Forall (λ obj, move_distance sqrt_6dp obj = 0) objects
    ∧ AppFinal.update_adjustments_from_canvas sqrt_6dp (Some objects)
        (1600, 1200)%Z (600, 800)%Z AppFinal.sample_drag
      = (AppFinal.sample_drag, Ok false).
Proof.
  eexists. split; [vm_compute; reflexivity|].
  apply (final_untouched_canvas_commits_nothing sqrt_6dp sqrt_6dp_0 sample_face
           (1600, 1200)%Z (600, 800)%Z (Some (AppFinal.overrides AppFinal.sample_drag))
           AppFinal.sample_drag).
  - by_eval.
  - vm_compute. reflexivity.
Defined.

(** ** The branches of the confidence assessment *)

Lemma foldl_Qcplus_nonneg (l : list Qc) (acc : Qc) :
  Forall (λ v, 0 ≤ v) l → 0 ≤ acc → 0 ≤ foldl Qcplus acc l.
Proof.
  intros Hall. revert acc. induction Hall as [|v l Hv _ IH]; intros acc Hacc; [exact Hacc|].
  simpl. apply IH. replace 0 with (0 + 0) by reflexivity.
  apply Qcplus_le_compat; assumption.
Qed.

Lemma Qc_mul_nonneg (a b : Qc) : 0 ≤ a → 0 ≤ b → 0 ≤ a * b.
Proof.
  intros Ha Hb. rewrite <- (Qcmult_0_l b). apply Qcmult_le_compat_r; assumption.
Qed.

Lemma Qc_square_nonneg (x : Qc) : 0 ≤ x ^ 2.
Proof.
  simpl. rewrite Qcmult_1_r.
  destruct (Qclt_le_dec x 0) as [Hneg|Hpos].
  - replace (x * x) with ((- x) * (- x)) by ring.
    assert (Hp : 0 ≤ - x).
    { apply Qclt_le_weak in Hneg. apply Qcopp_le_compat in Hneg. exact Hneg. }
    apply Qc_mul_nonneg; exact Hp.
  - apply Qc_mul_nonneg; exact Hpos.
Qed.

Lemma np_var_nonneg (l : list Qc) : 0 ≤ np_var l.
Proof.
  unfold np_var, np_mean at 1, py_sum, Qcdiv.
  apply Qc_mul_nonneg.
  - apply foldl_Qcplus_nonneg; [|apply Qcle_refl].
    apply list.Forall_forall. intros v Hv.
    apply list_elem_of_fmap in Hv as (d & -> & _). apply Qc_square_nonneg.
  - set (n := length _). destruct n as [|n]; [apply Qcle_refl|].
    apply Qclt_le_weak, Qcinv_pos, Z2Qc_pos. lia.
Qed.

(** With a variance that is not negative the clamp of the confidence does
    nothing. *)
Lemma confidence_unclamped (v : Qc) :
  0 ≤ v → py_max 0 (py_min 1 (1 / (1 + v / ten))) = 1 / (1 + v / ten).
Proof.
  intros Hv.
  assert (Hd : 1 ≤ 1 + v / ten).
  { replace 1 with (1 + 0) at 1 by ring. apply Qcplus_le_compat; [apply Qcle_refl|].
    unfold Qcdiv. apply Qc_mul_nonneg; [exact Hv | by_eval]. }
  assert (Hdp : 0 < 1 + v / ten) by (eapply Qclt_le_trans; [|exact Hd]; reflexivity).
  assert (Hx : 0 < 1 / (1 + v / ten)).
  { unfold Qcdiv. rewrite Qcmult_1_l. apply Qcinv_pos, Hdp. }
  assert (Hx1 : 1 / (1 + v / ten) ≤ 1).
  { apply (Qcmult_lt_0_le_reg_r _ _ (1 + v / ten) Hdp).
    assert (E : 1 / (1 + v / ten) * (1 + v / ten) = 1).
    { set (d := 1 + v / ten) in *. unfold Qcdiv. rewrite Qcmult_1_l.
      apply Qcmult_inv_l, Qc_pos_neq0, Hdp. }
    rewrite E, Qcmult_1_l. exact Hd. }
  assert (Hmin : py_min 1 (1 / (1 + v / ten)) = 1 / (1 + v / ten)).
  { unfold py_min. case_bool_decide as Hlt; [reflexivity|].
    apply Qcle_antisym; [apply Qcnot_lt_le, Hlt | exact Hx1]. }
  rewrite Hmin. unfold py_max. rewrite bool_decide_eq_true_2 by exact Hx. reflexivity.
Qed.

(** The points that the assessment collects are as many as the indices of
    the group within the sequence. *)
Lemma length_points_in_range {A} (landmark : list NormalizedLandmark)
    (point_of : NormalizedLandmark → A) (group_indices : list nat) :
  length (flat_map (λ idx,
            if bool_decide (idx < length landmark)%nat then
              match landmark !! idx with
              | Some point => point_of point :: []
              | None => []
              end
            else []) group_indices)
  = length (filter (λ idx, idx < length landmark)%nat group_indices).
Proof.
  induction group_indices as [|idx group_indices IH]; [reflexivity|].
  cbn [flat_map]. rewrite length_app, IH, filter_cons.
  case_bool_decide as Hidx.
  - destruct (lookup_lt_is_Some_2 landmark idx Hidx) as [point ->].
    rewrite decide_True by exact Hidx. reflexivity.
  - rewrite decide_False by exact Hidx. reflexivity.
Qed.

(** X25: the branches of [assess_landmark_confidence] in [app.py].  The
    status is [insufficient_points] exactly for a group with fewer than two
    indices within the landmark sequence; [calculation_failed] and an
    infinite variance are never returned; for a group with two or more
    indices within the sequence the record holds their number, a variance
    that is not negative and the confidence [1 / (1 + variance / 10)]: the
    clamp to [0, 1] changes nothing. *)
Theorem confidence_branches (sqrt : Qc → Qc) (landmark : list NormalizedLandmark)
    (point_name : string) (image_shape : Z * Z) :
  let info := assess_landmark_confidence sqrt landmark point_name image_shape in
  let in_range := λ group_indices : list nat,
    length (filter (λ idx, idx < length landmark)%nat group_indices) in
  info !! "status" ≠ Some (VStr "calculation_failed")
  ∧ info !! "variance" ≠ Some VInf
  ∧ (info !! "status" = Some (VStr "insufficient_points")
     ↔ ∃ group_indices, landmark_group point_name = Some group_indices
         ∧ (in_range group_indices < 2)%nat)
  ∧ (∀ group_indices, landmark_group point_name = Some group_indices →
       (2 ≤ in_range group_indices)%nat →
       ∃ variance, info !! "variance" = Some (VFloat variance) ∧ 0 ≤ variance
         ∧ info !! "confidence" = Some (VFloat (1 / (1 + variance / ten)))
         ∧ info !! "point_count" = Some (VInt (Z.of_nat (in_range group_indices)))).
Proof.
  intros info in_range. unfold info, assess_landmark_confidence.
  destruct (landmark_group point_name) as [group_indices|]; destruct image_shape as [h w].
  2:{ split; [intros [=]|]. split; [intros [=]|].
      split; [split; [intros [=] | intros (g & [=] & _)] | intros g [=]]. }
  pose proof (length_points_in_range landmark
                (λ point, {| p3_x := lm_x point * Z2Qc w; p3_y := lm_y point * Z2Qc h;
                             p3_z := lm_z point |}) group_indices) as Hlen.
  fold (in_range group_indices) in Hlen.
  set (points := flat_map _ group_indices) in *.
  case_bool_decide as Hfew.
  { split; [intros [=]|]. split; [intros [=]|]. split.
    - split; [intros _; exists group_indices; split; [reflexivity | lia] | reflexivity].
    - intros g [= <-] Hmany. lia. }
  assert (Hcenter : is_Some (calculate_group_center (Some landmark) group_indices (h, w))).
  { apply calculate_group_center_Some.
    destruct (filter (λ idx, idx < length landmark)%nat group_indices) as [|idx l] eqn:Hf.
    - unfold in_range in Hlen. rewrite Hf in Hlen. simpl in Hlen. lia.
    - assert (Hin : idx ∈ filter (λ idx, idx < length landmark)%nat group_indices)
        by (rewrite Hf; apply list.elem_of_cons; left; reflexivity).
      apply list_elem_of_filter in Hin as [Hidx Hin].
      apply Exists_exists. exists idx. split; [apply list_elem_of_In, Hin | exact Hidx]. }
  destruct Hcenter as [center ->].
  set (distances := map _ points).
  assert (Hd : ∃ d ds, distances = d :: ds).
  { destruct distances as [|d ds] eqn:Hd; [|eexists _, _; reflexivity].
    apply (f_equal length) in Hd. unfold distances in Hd.
    rewrite length_map in Hd. simpl in Hd. lia. }
  destruct Hd as (d & ds & Hd). rewrite Hd.
  pose proof (np_var_nonneg (d :: ds)) as Hvar.
  cbv zeta. rewrite (confidence_unclamped _ Hvar).
  destruct (bool_decide (Q2Qc (8 # 10) < _)); [|destruct (bool_decide (half < _))].
  all: split; [intros [=]|]; (split; [intros [=]|]); split;
    [split; [intros [=] | intros (g & [= <-] & Hlt); lia]
    |intros g [= <-] _; eexists; split; [reflexivity|]; split; [exact Hvar|];
     split; [reflexivity | rewrite <- Hlen; reflexivity]].
Qed.
